(** * Audit reconciliation of the release controller

    A shallow embedding of [cmd/release-controller/audit.go]: the audit
    tracker ([AuditTracker.Get], [SetFailure], [Sync]), the per-release entry
    point [syncAudit], the per-tag reconciler [syncAuditTag], the admission
    count [countAuditVerifyJobs], the job naming of [ensureAuditVerifyJob]
    and [ensureJobTerminationMessageRetrieved].

    Conventions.
    - Go strings are byte strings: [string] is a list of [ascii], [len] is
      [String.length] and [s[:n]] keeps the first [n] bytes.
    - A Go map is a [gmap]; the tracker's [map[string]*AuditRecord] is a
      [gmap string AuditRecord], the set [sets.String] is a [gset string].
    - A method of [*Controller] is a computation [M A] over a [World]: the
      tracker's records, the two queues, the signature store, the jobs of the
      job namespace, the number of clock readings and the trace of calls to
      the collaborators.  A computation ends in a value or in a Go panic.
    - What the collaborators answer (release loading, the verify command, the
      job API, the signer, the store, the clock) is data of the [Controller]
      record, so every theorem quantifies over all their behaviours.
    - Logging ([glog]) and the tracker's mutex are left out: the model is
      sequential. *)

From stdpp Require Import gmap strings list fin_maps.
From Stdlib Require Import ZArith Lia Ascii.

Local Open Scope string_scope.
Local Open Scope Z_scope.

(** ** Go strings *)

Module GoStrings.

(** [len(s)] *)
Definition len (s : string) : Z := Z.of_nat (String.length s).

(** [s[:n]] for [n <= len(s)]; the callers check the bound. *)
Fixpoint slice_to (n : nat) (s : string) : string :=
  match n, s with
  | O, _ => ""
  | S n', String a s' => String a (slice_to n' s')
  | S _, "" => ""
  end.

(** [strings.Cut] on a one-byte separator: the text before and after the
    first occurrence of [sep]. *)
Fixpoint cut (sep : Ascii.ascii) (s : string) : option (string * string) :=
  match s with
  | "" => None
  | String a s' =>
      if Ascii.eqb a sep then Some ("", s')
      else match cut sep s' with
           | Some (before, after) => Some (String a before, after)
           | None => None
           end
  end.

(** [strings.SplitN(s, sep, 2)] for a one-byte separator: at most two
    substrings, the second being the unsplit remainder. *)
Definition SplitN2 (s : string) (sep : Ascii.ascii) : list string :=
  match cut sep s with
  | Some (before, after) => [before; after]
  | None => [s]
  end.

(** [strings.Replace(s, old, new, -1)] for one-byte [old] and [new]. *)
Fixpoint Replace (s : string) (old new : Ascii.ascii) : string :=
  match s with
  | "" => ""
  | String a s' => String (if Ascii.eqb a old then new else a) (Replace s' old new)
  end.

(** Whether the byte [a] occurs in [s]. *)
Fixpoint contains (a : Ascii.ascii) (s : string) : bool :=
  match s with
  | "" => false
  | String b s' => Ascii.eqb b a || contains a s'
  end.

End GoStrings.

Import GoStrings.

(** ** The name of the verification job ([ensureAuditVerifyJob], lines 163-172) *)

Definition colon : Ascii.ascii := ":"%char.
Definition dash : Ascii.ascii := "-"%char.

Definition auditVerifyJobName (recordID : string) : string :=
  let name := recordID in
  let parts := SplitN2 recordID colon in
  let name := match parts with
              | [_; p1] => "verify-" +:+ p1
              | _ => name
              end in
  let name := Replace name colon dash in
  if (63 <? len name)%Z then slice_to 63 name else name.

(** ** Time

    A [time.Time] is a number of nanoseconds, a [time.Duration] a signed
    64-bit number of nanoseconds. *)

Module GoTime.

Definition minDuration : Z := - 2 ^ 63.
Definition maxDuration : Z := 2 ^ 63 - 1.

Definition Second : Z := 1000000000.
Definition Hour : Z := 3600 * Second.

(** [t.Sub(u)]: the difference, saturated to the range of a duration. *)
Definition Sub (t u : Z) : Z :=
  let d := t - u in
  if d <? minDuration then minDuration
  else if maxDuration <? d then maxDuration
  else d.

End GoTime.

(** ** Data model *)

Record AuditFailure := {
  Reason : string;
  Message : string
}.

Record AuditRecord := {
  At : Z;
  Name : string;
  ID : string;
  Location : string;
  Release : string;
  ImageStreamNamespace : string;
  ImageStreamName : string;
  Failure : option AuditFailure
}.

(** The part of an image stream the audit code reads. *)
Record TagReference := {
  tagName : string;
  tagAnnotations : gmap string string
}.

Record ImageStream := {
  isNamespace : string;
  isName : string;
  isResourceVersion : string;
  isTags : list TagReference;
  (** the status of the stream, read only by [findImageIDForTag] and
      [findPublicImagePullSpec]: per tag, the image id and the pull spec *)
  isStatus : list (string * (string * string))
}.

Record ReleaseConfig := {
  cfgName : string;
  cfgAs : string;
  OverrideCLIImage : string;
  PullSecretName : string
}.

Record ReleaseT := {
  Source : ImageStream;
  Target : ImageStream;
  Config : ReleaseConfig
}.

Record Container := {
  cName : string;
  cCommand : list string
}.

Record ContainerStateTerminated := {
  FinishedAt : Z;
  ExitCode : Z;
  termMessage : string
}.

Record ContainerStatus := {
  Terminated : option ContainerStateTerminated
}.

(** A batch job.  A [nil] map is [None]: reading it is allowed, writing it
    panics. *)
Record Job := {
  jobName : string;
  jobLabels : option (gmap string string);
  jobAnnotations : option (gmap string string);
  jobContainers : list Container;
  jobActive : Z;
  jobCompletionTime : option Z
}.

(** ** Panics

    The value a goroutine panics with is an [interface{}]. *)

Inductive PanicValue :=
| PNil
| PError (msg : string)
| PRuntimeError (msg : string)
| PPanicNilError.

Inductive outcome (A : Type) :=
| Returned (a : A)
| Panicked (v : PanicValue).
Arguments Returned {A} a.
Arguments Panicked {A} v.

(** ** Calls to the collaborators, in the order they are made *)

Inductive Event :=
| EvLoadRelease (namespace name : string)
| EvHasSignature (dgst : string)
| EvExecVerify (location : string)
| EvListJobs
| EvGetJob (name : string)
| EvCreateJob (job : Job)
| EvFindPods (job : string) (fieldSelector container : string)
| EvSign (dgst location : string)
| EvPutSignature (dgst : string) (signature : list Byte.byte).

(** ** The controller: configuration and collaborators *)

Record Controller := {
  (** configuration *)
  cliImageForAudit : string;
  (** [c.signer]: [None] is the nil signer; [Sign] answers a signature and
      an error *)
  signer : option (string -> string -> list Byte.byte * option string);
  (** [c.loadReleaseForSync]: a release and an error, or a panic *)
  loadReleaseForSync : string -> string -> outcome (option ReleaseT * option string);
  (** the error of [c.auditStore.PutSignature] *)
  putSignatureError : string -> list Byte.byte -> option string;
  (** [exec.Command("oc", "adm", "release", "info", "--verify", location).CombinedOutput()] *)
  execVerify : string -> string * option string;
  (** the error of [c.jobLister.Jobs(ns).List] *)
  jobListError : option string;
  (** the error of the job client's create *)
  jobCreateError : Job -> option string;
  (** [jobIsComplete(job)]: (success, complete) *)
  jobIsComplete : Job -> bool * bool;
  (** [findJobContainerStatus(podClient, job, selector, container)] *)
  findJobContainerStatus : Job -> string -> string -> list ContainerStatus * option string;
  (** [sort.Slice] on container statuses, given [less] on elements *)
  sortSlice : (ContainerStatus -> ContainerStatus -> bool) -> list ContainerStatus -> list ContainerStatus;
  (** [strings.TrimSpace] *)
  TrimSpace : string -> string;
  (** [newReleaseJobBase(name, cliImage, pullSecretName)]: a job and a script prefix *)
  newReleaseJobBase : string -> string -> string -> Job * string;
  (** [findImageIDForTag(is, tag)] and [findPublicImagePullSpec(is, tag)] *)
  findImageIDForTag : ImageStream -> string -> string;
  findPublicImagePullSpec : ImageStream -> string -> string;
  (** the n-th reading of [time.Now()] *)
  clock : nat -> Z;
  (** constants declared elsewhere in the package *)
  releaseAnnotationSource : string;
  releaseAnnotationTarget : string;
  releaseAnnotationReleaseTag : string;
  releaseAnnotationJobPurpose : string;
  releaseAnnotationPhase : string;
  releaseConfigModeStable : string;
  (** whether [panic(nil)] panics with a [*runtime.PanicNilError]
      (Go 1.21 and later) or with the nil value itself (before) *)
  panicNilError : bool
}.

(** ** The world a reconciliation runs in *)

Record World := {
  (** [c.auditTracker.records] *)
  records : gmap string AuditRecord;
  (** calls of [a.queue.Add], oldest first *)
  trackerQueue : list string;
  (** calls of [c.auditQueue.AddAfter], oldest first *)
  auditQueue : list (string * Z);
  (** the digests the signature store holds a signature for *)
  signatures : gset string;
  (** the jobs of [c.jobNamespace], by name *)
  jobs : gmap string Job;
  (** number of readings of the clock so far *)
  ticks : nat;
  (** calls to collaborators, oldest first *)
  trace : list Event
}.

Definition set_records (f : gmap string AuditRecord -> gmap string AuditRecord) (w : World) : World :=
  {| records := f (records w); trackerQueue := trackerQueue w; auditQueue := auditQueue w;
     signatures := signatures w; jobs := jobs w; ticks := ticks w; trace := trace w |}.

Definition set_trackerQueue (f : list string -> list string) (w : World) : World :=
  {| records := records w; trackerQueue := f (trackerQueue w); auditQueue := auditQueue w;
     signatures := signatures w; jobs := jobs w; ticks := ticks w; trace := trace w |}.

Definition set_auditQueue (f : list (string * Z) -> list (string * Z)) (w : World) : World :=
  {| records := records w; trackerQueue := trackerQueue w; auditQueue := f (auditQueue w);
     signatures := signatures w; jobs := jobs w; ticks := ticks w; trace := trace w |}.

Definition set_signatures (f : gset string -> gset string) (w : World) : World :=
  {| records := records w; trackerQueue := trackerQueue w; auditQueue := auditQueue w;
     signatures := f (signatures w); jobs := jobs w; ticks := ticks w; trace := trace w |}.

Definition set_jobs (f : gmap string Job -> gmap string Job) (w : World) : World :=
  {| records := records w; trackerQueue := trackerQueue w; auditQueue := auditQueue w;
     signatures := signatures w; jobs := f (jobs w); ticks := ticks w; trace := trace w |}.

Definition set_ticks (f : nat -> nat) (w : World) : World :=
  {| records := records w; trackerQueue := trackerQueue w; auditQueue := auditQueue w;
     signatures := signatures w; jobs := jobs w; ticks := f (ticks w); trace := trace w |}.

Definition set_trace (f : list Event -> list Event) (w : World) : World :=
  {| records := records w; trackerQueue := trackerQueue w; auditQueue := auditQueue w;
     signatures := signatures w; jobs := jobs w; ticks := ticks w; trace := f (trace w) |}.

(** ** Computations: state passing, ending in a value or a panic *)

Definition M (A : Type) : Type := World -> outcome A * World.

Definition ret {A} (a : A) : M A := fun w => (Returned a, w).

Definition bind {A B} (m : M A) (k : A -> M B) : M B :=
  fun w => match m w with
           | (Returned a, w') => k a w'
           | (Panicked v, w') => (Panicked v, w')
           end.

Definition panic {A} (v : PanicValue) : M A := fun w => (Panicked v, w).

Definition modify (f : World -> World) : M unit := fun w => (Returned tt, f w).

Definition gets {A} (f : World -> A) : M A := fun w => (Returned (f w), w).

Definition emit (e : Event) : M unit := modify (set_trace (fun t => (t ++ [e])%list)).

Declare Scope go_scope.
Delimit Scope go_scope with go.
Notation "x <- m ;; k" := (bind m (fun x => k))
  (at level 100, m at next level, right associativity) : go_scope.
Notation "m ;;; k" := (bind m (fun _ => k))
  (at level 100, right associativity) : go_scope.
Local Open Scope go_scope.

Fixpoint foldM {A B} (f : A -> B -> M A) (a : A) (l : list B) : M A :=
  match l with
  | [] => ret a
  | b :: l' => a' <- f a b ;; foldM f a' l'
  end.

(** The events a computation adds to the trace of [w] on the way to [w']. *)
Definition new_events (w w' : World) : list Event :=
  drop (length (trace w)) (trace w').

Record queueKey := {
  namespace : string;
  name : string
}.

(** [fmt.Sprintf("%v", err)] for an error that may be nil. *)
Definition fmtV (err : option string) : string :=
  match err with
  | Some e => e
  | None => "<nil>"
  end.

Definition with_At (t : Z) (r : AuditRecord) : AuditRecord :=
  {| At := t; Name := Name r; ID := ID r; Location := Location r; Release := Release r;
     ImageStreamNamespace := ImageStreamNamespace r; ImageStreamName := ImageStreamName r;
     Failure := Failure r |}.

Definition with_Failure (f : option AuditFailure) (r : AuditRecord) : AuditRecord :=
  {| At := At r; Name := Name r; ID := ID r; Location := Location r; Release := Release r;
     ImageStreamNamespace := ImageStreamNamespace r; ImageStreamName := ImageStreamName r;
     Failure := f |}.

(** [NewAuditTracker]: no record, nothing queued. *)
Definition NewAuditTracker (w : World) : World :=
  set_trackerQueue (fun _ => []) (set_records (fun _ => ∅) w).

Section Code.

Variable c : Controller.

(** [time.Now()] *)
Definition timeNow : M Z :=
  fun w => (Returned (clock c (ticks w)), set_ticks S w).

(** *** AuditTracker (lines 273-378) *)

(** [a.queue.Add(name)] *)
Definition queueAdd (tag : string) : M unit :=
  modify (set_trackerQueue (fun q => (q ++ [tag])%list)).

Definition SetFailure (name message : string) : M unit :=
  existing <- gets (fun w => records w !! name) ;;
  match existing with
  | None => ret tt
  | Some existing =>
      now <- timeNow ;;
      let existing := with_At now existing in
      let existing :=
        with_Failure (Some {| Reason := "VerificationFailed"; Message := message |}) existing in
      modify (set_records (insert name existing))
  end.

(** The record is copied out, failure included: the caller gets a value. *)
Definition Get (name : string) : M (option AuditRecord) :=
  gets (fun w => records w !! name).

(** The body of the loop over [from.Spec.Tags] (lines 316-366); [found] is
    the set of recognized tags so far. *)
Definition syncTag (release : ReleaseT) (now : Z) (found : gset string) (tag : TagReference)
  : M (gset string) :=
  let from := Target release in
  match tagAnnotations tag !! releaseAnnotationSource c with
  | None => ret found
  | Some _ =>
    if len (tagName tag) =? 0 then ret found else
    let phase := default "" (tagAnnotations tag !! releaseAnnotationPhase c) in
    if bool_decide (phase ≠ "Accepted") && bool_decide (phase ≠ "Ready")
       && bool_decide (phase ≠ "Rejected") then ret found else
    let found := found ∪ {[ tagName tag ]} in
    let id := findImageIDForTag c from (tagName tag) in
    let location := findPublicImagePullSpec c from (tagName tag) in
    existing <- gets (fun w => records w !! tagName tag) ;;
    match existing with
    | None =>
        modify (set_records (insert (tagName tag)
          {| At := now; Name := tagName tag; ID := id; Location := location;
             Release := cfgName (Config release);
             ImageStreamNamespace := isNamespace (Source release);
             ImageStreamName := isName (Source release);
             Failure := None |})) ;;;
        queueAdd (tagName tag) ;;;
        ret found
    | Some existing =>
        let changed := false in
        let changed := if bool_decide (Location existing ≠ location) then true else changed in
        let changed := if bool_decide (ID existing ≠ id) then true else changed in
        t <- timeNow ;;
        changed <-
          (if GoTime.Sub t (At existing) >? 12 * GoTime.Hour then
             modify (set_records (insert (tagName tag)
               (with_Failure None (with_At now existing)))) ;;;
             ret true
           else ret changed) ;;
        (if changed : bool then queueAdd (tagName tag) else ret tt) ;;;
        ret found
    end
  end.

(** The loop over the records (lines 369-377): a record goes when its
    release is this one and its key is not among the recognized tags. *)
Definition removeOldTags (releaseName : string) (found : gset string)
    (rs : gmap string AuditRecord) : gmap string AuditRecord :=
  filter (fun kv => Release kv.2 ≠ releaseName ∨ kv.1 ∈ found) rs.

Definition Sync (release : ReleaseT) : M unit :=
  if bool_decide (cfgAs (Config release) ≠ releaseConfigModeStable c) then ret tt else
  now <- timeNow ;;
  found <- foldM (syncTag release now) ∅ (isTags (Target release)) ;;
  modify (set_records (removeOldTags (cfgName (Config release)) found)).

(** *** syncAudit (lines 29-43) *)

(** [c.loadReleaseForSync(namespace, name)] *)
Definition loadRelease (namespace name : string) : M (option ReleaseT * option string) :=
  emit (EvLoadRelease namespace name) ;;;
  match loadReleaseForSync c namespace name with
  | Returned r => ret r
  | Panicked v => panic v
  end.

(** The statements of [syncAudit] after the [defer]. *)
Definition syncAudit_body (key : queueKey) : M (option string) :=
  loaded <- loadRelease (namespace key) (name key) ;;
  let '(release, err) := loaded in
  match err, release with
  | Some _, _ | None, None => ret err
  | None, Some release =>
      Sync release ;;;
      ret None
  end.

(** [panic(v)]: the value the goroutine panics with. *)
Definition panicValue (v : PanicValue) : PanicValue :=
  match v with
  | PNil => if panicNilError c then PPanicNilError else PNil
  | _ => v
  end.

(** [recover()] in a function deferred by a function whose body ended in
    [o]: the value of the panic in flight, nil when there is none. *)
Definition recover {A} (o : outcome A) : PanicValue :=
  match o with
  | Returned _ => PNil
  | Panicked v => v
  end.

(** The deferred function runs when the body returns and when it panics:
    [err := recover(); panic(err)]. *)
Definition syncAudit (key : queueKey) : M (option string) :=
  fun w =>
    let '(o, w') := syncAudit_body key w in
    let err := recover o in
    panic (panicValue err) w'.

(** *** countAuditVerifyJobs (lines 145-160) *)

Definition auditVerifyJobSelector (job : Job) : bool :=
  match jobLabels job with
  | Some labels => bool_decide (labels !! releaseAnnotationJobPurpose c = Some "audit")
  | None => false
  end.

Fixpoint countUnfinished (count : Z) (result : list Job) : Z :=
  match result with
  | [] => count
  | job :: rest =>
      match jobCompletionTime job with
      | Some _ => countUnfinished count rest
      | None => countUnfinished (count + 1) rest
      end
  end.

(** The jobs the lister answers for the selector, among the jobs [js] of
    the namespace. *)
Definition listAuditJobs (js : gmap string Job) : list Job :=
  filter (fun job => auditVerifyJobSelector job = true) (map_to_list js).*2.

Definition countAuditVerifyJobs : M (Z * bool) :=
  emit EvListJobs ;;;
  match jobListError c with
  | Some _ => ret (0, false)
  | None =>
      result <- gets (fun w => listAuditJobs (jobs w)) ;;
      ret (countUnfinished 0 result, true)
  end.

(** *** ensureAuditVerifyJob (lines 162-202) *)

Definition quote : string := String (ascii_of_nat 34) "".
Definition newline : string := String (ascii_of_nat 10) "".
Definition tab : string := String (ascii_of_nat 9) "".

(** The raw string literal of lines 183-185. *)
Definition verifyScript : string :=
  newline +:+ tab +:+ tab +:+ tab +:+ "oc adm release info --verify "
    +:+ quote +:+ "$1" +:+ quote +:+ newline +:+ tab +:+ tab +:+ tab.

(** The function handed to [ensureJob] (lines 174-201), given what
    [newReleaseJobBase] answered.  Writing [Containers[0]] of a job with no
    container panics, and so does writing an entry of a nil map. *)
Definition verifyJobFrom (base : Job * string) (release : ReleaseT) (record : AuditRecord)
  : outcome Job :=
  let '(job, prefix) := base in
  match jobContainers job with
  | [] => Panicked (PRuntimeError "index out of range [0] with length 0")
  | c0 :: cs =>
      let c0 := {| cName := "verify"; cCommand := cCommand c0 |} in
      let c0 := {| cName := cName c0;
                   cCommand := ["/bin/bash"; "-c"; prefix +:+ verifyScript; "";
                                Location record] |} in
      let labels := match jobLabels job with
                    | None => ∅
                    | Some labels => labels
                    end in
      let labels := <[ releaseAnnotationJobPurpose c := "audit" ]> labels in
      match jobAnnotations job with
      | None => Panicked (PRuntimeError "assignment to entry in nil map")
      | Some annotations =>
          let annotations :=
            <[ releaseAnnotationSource c :=
                 isNamespace (Source release) +:+ "/" +:+ isName (Source release) ]>
              annotations in
          let annotations :=
            <[ releaseAnnotationTarget c :=
                 isNamespace (Target release) +:+ "/" +:+ isName (Target release) ]>
              annotations in
          let annotations := <[ releaseAnnotationReleaseTag c := Name record ]> annotations in
          let annotations := <[ releaseAnnotationJobPurpose c := "audit" ]> annotations in
          Returned {| jobName := jobName job; jobLabels := Some labels;
                      jobAnnotations := Some annotations;
                      jobContainers := c0 :: cs;
                      jobActive := jobActive job;
                      jobCompletionTime := jobCompletionTime job |}
      end
  end.

Definition verifyJobCreateFn (name : string) (release : ReleaseT) (record : AuditRecord)
  : outcome Job :=
  let cliImage := OverrideCLIImage (Config release) in
  verifyJobFrom (newReleaseJobBase c name cliImage (PullSecretName (Config release)))
    release record.

(** Modelled from the spec: [c.ensureJob] is declared outside audit.go.
    The spec has it as "create-or-get job by name (idempotent ensure)":
    the job of that name when there is one, else the job the given
    function builds, created through the job API, whose error is
    answered as it is. *)
Definition ensureJob (name : string) (createFn : outcome Job)
  : M (option Job * option string) :=
  emit (EvGetJob name) ;;;
  existing <- gets (fun w => jobs w !! name) ;;
  match existing with
  | Some job => ret (Some job, None)
  | None =>
      match createFn with
      | Panicked v => panic v
      | Returned job =>
          emit (EvCreateJob job) ;;;
          match jobCreateError c job with
          | Some err => ret (None, Some err)
          | None =>
              modify (set_jobs (insert name job)) ;;;
              ret (Some job, None)
          end
      end
  end.

Definition ensureAuditVerifyJob (release : ReleaseT) (record : AuditRecord)
  : M (option Job * option string) :=
  let name := auditVerifyJobName (ID record) in
  ensureJob name (verifyJobCreateFn name release record).

(** *** ensureJobTerminationMessageRetrieved (lines 204-240) *)

(** [less(i, j)] of line 214, on [x = statuses[i]] and [y = statuses[j]]. *)
Definition terminatedLess (x y : ContainerStatus) : bool :=
  let a := y in
  let b := x in
  match Terminated a, Terminated b with
  | Some ta, Some tb => FinishedAt ta <? FinishedAt tb
  | None, _ => true
  | Some _, None => false
  end.

Fixpoint firstTerminated (onlySuccess : bool) (statuses : list ContainerStatus)
  : string * Z * bool :=
  match statuses with
  | [] => ("", 0, false)
  | status :: rest =>
      match Terminated status with
      | None => firstTerminated onlySuccess rest
      | Some t =>
          if onlySuccess && negb (ExitCode t =? 0) then firstTerminated onlySuccess rest
          else (termMessage t, ExitCode t, true)
      end
  end.

Definition ensureJobTerminationMessageRetrieved (job : Job)
    (podFieldSelector containerName : string) (onlySuccess : bool) : M (string * Z * bool) :=
  if jobActive job =? 0 then ret ("", 0, false) else
  emit (EvFindPods (jobName job) podFieldSelector containerName) ;;;
  match findJobContainerStatus c job podFieldSelector containerName with
  | (_, Some _) => ret ("", 0, false)
  | (statuses, None) =>
      let statuses := sortSlice c terminatedLess statuses in
      ret (firstTerminated onlySuccess statuses)
  end.

(** *** The signature store

    Modelled from the spec: the implementations of [AuditStore] are
    outside audit.go.  The store holds a signature for a digest from the
    moment [PutSignature] succeeded for it, and [HasSignature] answers
    whether it holds one. *)

Definition HasSignature (dgst : string) : M bool :=
  emit (EvHasSignature dgst) ;;;
  gets (fun w => bool_decide (dgst ∈ signatures w)).

Definition PutSignature (dgst : string) (signature : list Byte.byte) : M (option string) :=
  emit (EvPutSignature dgst signature) ;;;
  match putSignatureError c dgst signature with
  | Some err => ret (Some err)
  | None =>
      modify (set_signatures (fun s => s ∪ {[ dgst ]})) ;;;
      ret None
  end.

(** *** syncAuditTag (lines 45-143) *)

(** [c.auditQueue.AddAfter(releaseName, d)] *)
Definition AddAfter (releaseName : string) (d : Z) : M unit :=
  modify (set_auditQueue (fun q => (q ++ [(releaseName, d)])%list)).

(** The [switch] of lines 121-142. *)
Definition signRelease (record : AuditRecord) : M (option string) :=
  match signer c with
  | None => ret None
  | Some Sign =>
      emit (EvSign (ID record) (Location record)) ;;;
      let '(sig, err) := Sign (ID record) (Location record) in
      match err with
      | Some e => ret (Some ("unable to sign release: " +:+ e))
      | None =>
          err <- PutSignature (ID record) sig ;;
          match err with
          | Some e => ret (Some ("unable to upload release signature: " +:+ e))
          | None => ret None
          end
      end
  end.

Definition syncAuditTag (releaseName : string) : M (option string) :=
  found <- Get releaseName ;;
  match found with
  | None => ret None
  | Some record =>
    match Failure record with
    | Some _ => ret None
    | None =>
      if len (ID record) =? 0 then
        let msg := "Release " +:+ Name record +:+ " has no digest and cannot be verified" in
        SetFailure (Name record) msg ;;;
        ret None
      else
      loaded <- loadRelease (ImageStreamNamespace record) (ImageStreamName record) ;;
      let '(release, err) := loaded in
      match err, release with
      | Some _, _ | None, None => ret err
      | None, Some release =>
        signed <- HasSignature (ID record) ;;
        if signed : bool then ret None else
        let image := cliImageForAudit c in
        let image := if len image =? 0 then OverrideCLIImage (Config release) else image in
        if len image =? 0 then ret None else
        if bool_decide (image = "local") then
          emit (EvExecVerify (Location record)) ;;;
          let '(out, err) := execVerify c (Location record) in
          match err with
          | Some _ =>
              let failureMsg := "Unable to verify release:" +:+ newline +:+ TrimSpace c out in
              SetFailure (Name record) failureMsg ;;;
              ret None
          | None => signRelease record
          end
        else
          counted <- countAuditVerifyJobs ;;
          let '(count, ok) := counted in
          if negb ok || (count >? 2) then
            AddAfter releaseName (10 * GoTime.Second) ;;;
            ret None
          else
          ensured <- ensureAuditVerifyJob release record ;;
          let '(job, err) := ensured in
          match err, job with
          | Some _, _ | None, None =>
              ret (Some ("unable to verify release before signing: " +:+ fmtV err))
          | None, Some job =>
              let '(success, complete) := jobIsComplete c job in
              if negb complete then
                AddAfter releaseName (10 * GoTime.Second) ;;;
                ret None
              else if negb success then
                let failureMsg := "Unable to verify release for unknown reason" in
                retrieved <- ensureJobTerminationMessageRetrieved job
                               "status.phase=Failed" "verify" false ;;
                let '(message, _, _) := retrieved in
                let failureMsg :=
                  if len message >? 0
                  then "Unable to verify release:" +:+ newline +:+ newline +:+ message
                  else failureMsg in
                SetFailure (Name record) failureMsg ;;;
                ret None
              else signRelease record
          end
      end
    end
  end.

End Code.

(** ** Runs: reconciliations and tracker syncs, one after the other

    Each step comes with the controller it runs under, so the collaborators
    may answer differently from one step to the next. *)

Inductive Step :=
| Reconcile (c : Controller) (releaseName : string)
| TrackerSync (c : Controller) (release : ReleaseT).

Definition step (s : Step) (w : World) : World :=
  match s with
  | Reconcile c releaseName => snd (syncAuditTag c releaseName w)
  | TrackerSync c release => snd (Sync c release w)
  end.

Definition run (steps : list Step) (w : World) : World :=
  foldl (fun w s => step s w) w steps.

Definition isSign (dgst : string) (e : Event) : bool :=
  match e with
  | EvSign d _ => bool_decide (d = dgst)
  | _ => false
  end.

Definition isPutSignature (dgst : string) (e : Event) : bool :=
  match e with
  | EvPutSignature d _ => bool_decide (d = dgst)
  | _ => false
  end.

(** Calls to a verification backend: the local command and the job API. *)
Definition isVerification (e : Event) : bool :=
  match e with
  | EvExecVerify _ | EvListJobs | EvGetJob _ | EvCreateJob _ | EvFindPods _ _ _ => true
  | _ => false
  end.

Definition isSigning (e : Event) : bool :=
  match e with
  | EvSign _ _ | EvPutSignature _ _ => true
  | _ => false
  end.

Fixpoint count {A} (p : A -> bool) (l : list A) : nat :=
  match l with
  | [] => O
  | x :: l' => ((if p x then 1 else 0) + count p l')%nat
  end.

(** ** Vocabulary of the statements *)

(** What holds of the outcome of [m] and of the world it leaves, from [w]. *)
Definition post {A} (m : M A) (w : World) (Q : outcome A -> World -> Prop) : Prop :=
  Q (fst (m w)) (snd (m w)).

(** The three guards of lines 317-326: a tag the loop of [Sync] goes on
    with. *)
Definition recognisedTag (c : Controller) (tag : TagReference) : bool :=
  let phase := default "" (tagAnnotations tag !! releaseAnnotationPhase c) in
  bool_decide (is_Some (tagAnnotations tag !! releaseAnnotationSource c))
  && negb (len (tagName tag) =? 0)
  && negb (bool_decide (phase ≠ "Accepted") && bool_decide (phase ≠ "Ready")
           && bool_decide (phase ≠ "Rejected")).

Fixpoint recognisedNames (c : Controller) (tags : list TagReference) : gset string :=
  match tags with
  | [] => ∅
  | tag :: rest =>
      if recognisedTag c tag then {[ tagName tag ]} ∪ recognisedNames c rest
      else recognisedNames c rest
  end.

(** The tag names [Sync(release)] puts in [found]. *)
Definition recognisedTags (c : Controller) (release : ReleaseT) : gset string :=
  recognisedNames c (isTags (Target release)).

(** Every record is stored under its own name. *)
Definition tracker_named (w : World) : Prop :=
  forall k r, records w !! k = Some r -> Name r = k.

(** The record a cooldown refresh of [Sync] leaves (lines 359-360). *)
Definition refreshed (now : Z) (r : AuditRecord) : AuditRecord :=
  with_Failure None (with_At now r).

(** The record [Sync] creates for a tag seen for the first time (lines
    335-344). *)
Definition freshRecord (c : Controller) (release : ReleaseT) (now : Z) (n : string)
  : AuditRecord :=
  {| At := now; Name := n;
     ID := findImageIDForTag c (Target release) n;
     Location := findPublicImagePullSpec c (Target release) n;
     Release := cfgName (Config release);
     ImageStreamNamespace := isNamespace (Source release);
     ImageStreamName := isName (Source release);
     Failure := None |}.

(** The location or the digest [Sync] resolves for the tag differs from the
    stored one (lines 350-357). *)
Definition drifted (c : Controller) (release : ReleaseT) (n : string) (r : AuditRecord) : bool :=
  bool_decide (Location r ≠ findPublicImagePullSpec c (Target release) n)
  || bool_decide (ID r ≠ findImageIDForTag c (Target release) n).

(** The test of line 358 at the reading [tick] of the clock. *)
Definition expired (c : Controller) (tick : nat) (r : AuditRecord) : bool :=
  GoTime.Sub (clock c tick) (At r) >? 12 * GoTime.Hour.

(** The failure of a record without digest (lines 57-58). *)
Definition noDigestFailure (tag : string) : AuditFailure :=
  {| Reason := "VerificationFailed";
     Message := "Release " +:+ tag +:+ " has no digest and cannot be verified" |}.

(** The image that selects the backend (lines 74-77). *)
Definition auditImage (c : Controller) (release : ReleaseT) : string :=
  if len (cliImageForAudit c) =? 0 then OverrideCLIImage (Config release)
  else cliImageForAudit c.

(** The reconciliation of [tag] gets to the verification backend with
    [record] and [release]: the record is tracked, not failed, has a digest,
    its release loads, and the store holds no signature for the digest. *)
Definition reachesBackend (c : Controller) (w : World) (tag : string)
    (record : AuditRecord) (release : ReleaseT) : Prop :=
  records w !! tag = Some record /\
  Failure record = None /\
  ID record <> "" /\
  loadReleaseForSync c (ImageStreamNamespace record) (ImageStreamName record)
    = Returned (Some release, None) /\
  ID record ∉ signatures w.

(** The backend is the cluster job. *)
Definition clusterJobMode (c : Controller) (release : ReleaseT) : Prop :=
  auditImage c release <> "" /\ auditImage c release <> "local".

(** What [countAuditVerifyJobs] answers in [w]. *)
Definition unfinishedAuditJobs (c : Controller) (w : World) : Z :=
  countUnfinished 0 (listAuditJobs c (jobs w)).

(** The admission check refuses: the listing fails or the count is over 2. *)
Definition throttled (c : Controller) (w : World) : Prop :=
  jobListError c <> None \/ unfinishedAuditJobs c w > 2.

(** A status a search for a termination message goes past (lines 231-236):
    not terminated, or failed when only a success is wanted. *)
Definition passedOver (onlySuccess : bool) (s : ContainerStatus) : Prop :=
  match Terminated s with
  | None => True
  | Some t => onlySuccess = true /\ ExitCode t <> 0
  end.

(** The terminated statuses of a list come latest first. *)
Definition latestFirst (statuses : list ContainerStatus) : Prop :=
  forall (i j : nat) si sj ti tj,
    (i < j)%nat ->
    statuses !! i = Some si -> statuses !! j = Some sj ->
    Terminated si = Some ti -> Terminated sj = Some tj ->
    FinishedAt tj <= FinishedAt ti.

(** ** Concrete inputs *)

Module Examples.

Definition tag (name phase : string) : TagReference :=
  {| tagName := name;
     tagAnnotations := {[ "release.openshift.io/source" := "ocp/origin";
                          "release.openshift.io/phase" := phase ]} |}.

Definition stream (tags : list TagReference) : ImageStream :=
  {| isNamespace := "ocp"; isName := "release"; isResourceVersion := "1";
     isTags := tags; isStatus := [] |}.

Definition release (name override : string) (tags : list TagReference) : ReleaseT :=
  {| Source := stream []; Target := stream tags;
     Config := {| cfgName := name; cfgAs := "Stable"; OverrideCLIImage := override;
                  PullSecretName := "" |} |}.

Definition baseJob (name image : string) : Job :=
  {| jobName := name; jobLabels := None; jobAnnotations := Some ∅;
     jobContainers := [ {| cName := "build"; cCommand := [image] |} ];
     jobActive := 0; jobCompletionTime := None |}.

(** A controller with the pinned image [image], whose releases carry the
    override [override], whose job listing answers [listError] and whose
    clock always reads [now]; the verify command, the signer and the store
    succeed. *)
Definition controller (image override : string) (listError : option string) (now : Z)
  : Controller :=
  {| cliImageForAudit := image;
     signer := Some (fun _ _ => ([], None));
     loadReleaseForSync := fun _ _ => Returned (Some (release "4.10" override []), None);
     putSignatureError := fun _ _ => None;
     execVerify := fun _ => ("", None);
     jobListError := listError;
     jobCreateError := fun _ => None;
     jobIsComplete := fun job => match jobCompletionTime job with
                                 | Some _ => (true, true)
                                 | None => (false, false)
                                 end;
     findJobContainerStatus := fun _ _ _ => ([], None);
     sortSlice := fun _ statuses => statuses;
     TrimSpace := fun s => s;
     newReleaseJobBase := fun name image _ => (baseJob name image, "");
     findImageIDForTag := fun _ _ => "sha256:abcd";
     findPublicImagePullSpec := fun _ _ => "registry.example/repo@sha256:abcd";
     clock := fun _ => now;
     releaseAnnotationSource := "release.openshift.io/source";
     releaseAnnotationTarget := "release.openshift.io/target";
     releaseAnnotationReleaseTag := "release.openshift.io/releaseTag";
     releaseAnnotationJobPurpose := "release.openshift.io/purpose";
     releaseAnnotationPhase := "release.openshift.io/phase";
     releaseConfigModeStable := "Stable";
     panicNilError := false |}.

(** A controller whose release loading fails. *)
Definition failingLoad : Controller :=
  {| cliImageForAudit := "";
     signer := None;
     loadReleaseForSync := fun _ _ => Returned (None, Some "not found");
     putSignatureError := fun _ _ => None;
     execVerify := fun _ => ("", None);
     jobListError := None;
     jobCreateError := fun _ => None;
     jobIsComplete := fun _ => (false, false);
     findJobContainerStatus := fun _ _ _ => ([], None);
     sortSlice := fun _ statuses => statuses;
     TrimSpace := fun s => s;
     newReleaseJobBase := fun name image _ => (baseJob name image, "");
     findImageIDForTag := fun _ _ => "";
     findPublicImagePullSpec := fun _ _ => "";
     clock := fun _ => 0;
     releaseAnnotationSource := "release.openshift.io/source";
     releaseAnnotationTarget := "release.openshift.io/target";
     releaseAnnotationReleaseTag := "release.openshift.io/releaseTag";
     releaseAnnotationJobPurpose := "release.openshift.io/purpose";
     releaseAnnotationPhase := "release.openshift.io/phase";
     releaseConfigModeStable := "Stable";
     panicNilError := false |}.

Definition record (name id owner : string) (failure : option AuditFailure) : AuditRecord :=
  {| At := 0; Name := name; ID := id;
     Location := "registry.example/repo@sha256:abcd"; Release := owner;
     ImageStreamNamespace := "ocp"; ImageStreamName := "release";
     Failure := failure |}.

Definition failure : AuditFailure :=
  {| Reason := "VerificationFailed"; Message := "Unable to verify release" |}.

Definition world (rs : gmap string AuditRecord) (js : gmap string Job) : World :=
  {| records := rs; trackerQueue := []; auditQueue := []; signatures := ∅;
     jobs := js; ticks := 0; trace := [] |}.

(** An audit job as the job API holds it, finished or not. *)
Definition auditJob (name : string) (completion : option Z) : Job :=
  {| jobName := name;
     jobLabels := Some {[ "release.openshift.io/purpose" := "audit" ]};
     jobAnnotations := Some ∅;
     jobContainers := [];
     jobActive := 0; jobCompletionTime := completion |}.

Definition thirteenHours : Z := 13 * GoTime.Hour.

(** A pinned local mode, and a world tracking one tag without digest. *)
Definition localController : Controller := controller "local" "" None 5.
Definition noDigestRecord : AuditRecord := record "t" "" "4.10" None.
Definition noDigestWorld : World := world {[ "t" := noDigestRecord ]} ∅.

(** A tracked tag with a digest, in a store without and with its
    signature. *)
Definition digest : string := "sha256:abcd".
Definition digestRecord : AuditRecord := record "t" digest "4.10" None.
Definition unsignedWorld : World := world {[ "t" := digestRecord ]} ∅.
Definition signedWorld : World := set_signatures (fun _ => {[ digest ]}) unsignedWorld.
Definition twoReconciliations : list Step :=
  [Reconcile localController "t"; Reconcile localController "t"].

(** Cluster-job mode by a pinned image, releases without override; the
    job listing works or fails. *)
Definition clusterController : Controller := controller "img" "" None 0.
Definition plainRelease : ReleaseT := release "4.10" "" [].


(** Two audit jobs are unfinished; the digest has no job yet. *)
Definition twoJobsWorld : World :=
  world {[ "t" := digestRecord ]}
    {[ "verify-1111" := auditJob "verify-1111" None;
       "verify-2222" := auditJob "verify-2222" None ]}.

(** The job [ensureAuditVerifyJob] builds for the digest under
    [clusterController]: its base is built with the empty image. *)
Definition verifyJob : Job :=
  match verifyJobFrom clusterController
          (newReleaseJobBase clusterController "verify-abcd" "" "")
          plainRelease digestRecord with
  | Returned job => job
  | Panicked _ => baseJob "" ""
  end.

(** A stable release with the accepted tag "t"; a clock that reads
    thirteen hours. *)
Definition taggedRelease : ReleaseT := release "4.10" "" [tag "t" "Accepted"].
Definition lateController : Controller := controller "img" "" None thirteenHours.

(** A failed record whose digest differs from the one [Sync] resolves. *)
Definition failedDriftedRecord : AuditRecord :=
  record "t" "sha256:0000" "4.10" (Some failure).
Definition failedWorld : World := world {[ "t" := failedDriftedRecord ]} ∅.

(** A failed record under the key "t", owned by another release. *)
Definition foreignRecord : AuditRecord := record "t" digest "4.11" (Some failure).
Definition foreignWorld : World := world {[ "t" := foreignRecord ]} ∅.

(** A record of release 4.10 whose tag is gone. *)
Definition staleRecord : AuditRecord := record "old" digest "4.10" None.
Definition staleWorld : World := world {[ "old" := staleRecord ]} ∅.

(** No pinned image; the release asks for "local". *)
Definition overrideLocalController : Controller := controller "" "local" None 0.
Definition localRelease : ReleaseT := release "4.10" "local" [].

(** A controller like [base] but for the release loading, the verify
    command, the job creation, the completion test, the pod lookup and the
    job base. *)
Definition custom (base : Controller)
    (load : string -> string -> outcome (option ReleaseT * option string))
    (exec : string -> string * option string)
    (createError : Job -> option string)
    (isComplete : Job -> bool * bool)
    (find : Job -> string -> string -> list ContainerStatus * option string)
    (jobBase : string -> string -> string -> Job * string) : Controller :=
  {| cliImageForAudit := cliImageForAudit base;
     signer := signer base;
     loadReleaseForSync := load;
     putSignatureError := putSignatureError base;
     execVerify := exec;
     jobListError := jobListError base;
     jobCreateError := createError;
     jobIsComplete := isComplete;
     findJobContainerStatus := find;
     sortSlice := sortSlice base;
     TrimSpace := TrimSpace base;
     newReleaseJobBase := jobBase;
     findImageIDForTag := findImageIDForTag base;
     findPublicImagePullSpec := findPublicImagePullSpec base;
     clock := clock base;
     releaseAnnotationSource := releaseAnnotationSource base;
     releaseAnnotationTarget := releaseAnnotationTarget base;
     releaseAnnotationReleaseTag := releaseAnnotationReleaseTag base;
     releaseAnnotationJobPurpose := releaseAnnotationJobPurpose base;
     releaseAnnotationPhase := releaseAnnotationPhase base;
     releaseConfigModeStable := releaseConfigModeStable base;
     panicNilError := panicNilError base |}.

(** No image pinned and none on the release. *)
Definition noImageController : Controller := controller "" "" None 0.

(** A controller like [base] but for the clock. *)
Definition withClock (base : Controller) (readings : nat -> Z) : Controller :=
  {| cliImageForAudit := cliImageForAudit base;
     signer := signer base;
     loadReleaseForSync := loadReleaseForSync base;
     putSignatureError := putSignatureError base;
     execVerify := execVerify base;
     jobListError := jobListError base;
     jobCreateError := jobCreateError base;
     jobIsComplete := jobIsComplete base;
     findJobContainerStatus := findJobContainerStatus base;
     sortSlice := sortSlice base;
     TrimSpace := TrimSpace base;
     newReleaseJobBase := newReleaseJobBase base;
     findImageIDForTag := findImageIDForTag base;
     findPublicImagePullSpec := findPublicImagePullSpec base;
     clock := readings;
     releaseAnnotationSource := releaseAnnotationSource base;
     releaseAnnotationTarget := releaseAnnotationTarget base;
     releaseAnnotationReleaseTag := releaseAnnotationReleaseTag base;
     releaseAnnotationJobPurpose := releaseAnnotationJobPurpose base;
     releaseAnnotationPhase := releaseAnnotationPhase base;
     releaseConfigModeStable := releaseConfigModeStable base;
     panicNilError := panicNilError base |}.

(** A controller like [base] but for [strings.TrimSpace]. *)
Definition withTrimSpace (base : Controller) (trim : string -> string) : Controller :=
  {| cliImageForAudit := cliImageForAudit base;
     signer := signer base;
     loadReleaseForSync := loadReleaseForSync base;
     putSignatureError := putSignatureError base;
     execVerify := execVerify base;
     jobListError := jobListError base;
     jobCreateError := jobCreateError base;
     jobIsComplete := jobIsComplete base;
     findJobContainerStatus := findJobContainerStatus base;
     sortSlice := sortSlice base;
     TrimSpace := trim;
     newReleaseJobBase := newReleaseJobBase base;
     findImageIDForTag := findImageIDForTag base;
     findPublicImagePullSpec := findPublicImagePullSpec base;
     clock := clock base;
     releaseAnnotationSource := releaseAnnotationSource base;
     releaseAnnotationTarget := releaseAnnotationTarget base;
     releaseAnnotationReleaseTag := releaseAnnotationReleaseTag base;
     releaseAnnotationJobPurpose := releaseAnnotationJobPurpose base;
     releaseAnnotationPhase := releaseAnnotationPhase base;
     releaseConfigModeStable := releaseConfigModeStable base;
     panicNilError := panicNilError base |}.

(** A clock that advances by one hour at every reading. *)
Definition hourly (n : nat) : Z := Z.of_nat n * GoTime.Hour.
Definition tickingController : Controller := withClock clusterController hourly.

(** The failed, drifted record of time 0 after twenty readings of the
    clock. *)
Definition agedWorld : World := set_ticks (fun _ => 20%nat) failedWorld.

(** [strings.TrimSpace] on ASCII text: the white space of both ends goes. *)
Definition isSpace (a : Ascii.ascii) : bool :=
  let n := Ascii.nat_of_ascii a in
  (n =? 32)%nat || ((9 <=? n)%nat && (n <=? 13)%nat).

Fixpoint trimLeft (s : string) : string :=
  match s with
  | String a s' => if isSpace a then trimLeft s' else s
  | "" => ""
  end.

Definition asciiTrimSpace (s : string) : string :=
  String.rev (trimLeft (String.rev (trimLeft s))).

(** What the failing verify command prints. *)
Definition verifyOutput : string := "  error: image signature mismatch " +:+ newline.

(** The local verify command fails. *)
Definition failingVerifyController : Controller :=
  withTrimSpace
    (custom localController (loadReleaseForSync localController)
       (fun _ => (verifyOutput, Some "exit status 1"))
       (jobCreateError localController) (jobIsComplete localController)
       (findJobContainerStatus localController) (newReleaseJobBase localController))
    asciiTrimSpace.

(** The job API refuses the creation. *)
Definition refusedCreateController : Controller :=
  custom clusterController (loadReleaseForSync clusterController)
    (execVerify clusterController) (fun _ => Some "forbidden")
    (jobIsComplete clusterController) (findJobContainerStatus clusterController)
    (newReleaseJobBase clusterController).

(** Every job has completed without success. *)
Definition failedJobController : Controller :=
  custom clusterController (loadReleaseForSync clusterController)
    (execVerify clusterController) (jobCreateError clusterController)
    (fun _ => (false, true)) (findJobContainerStatus clusterController)
    (newReleaseJobBase clusterController).

(** The job base comes without annotations. *)
Definition bareJob (name : string) : Job :=
  {| jobName := name; jobLabels := None; jobAnnotations := None;
     jobContainers := [ {| cName := "build"; cCommand := [] |} ];
     jobActive := 0; jobCompletionTime := None |}.

Definition bareBaseController : Controller :=
  custom clusterController (loadReleaseForSync clusterController)
    (execVerify clusterController) (jobCreateError clusterController)
    (jobIsComplete clusterController) (findJobContainerStatus clusterController)
    (fun name _ _ => (bareJob name, "")).

(** The release loading panics. *)
Definition panickingLoadController : Controller :=
  custom clusterController (fun _ _ => Panicked (PError "informer not synced"))
    (execVerify clusterController) (jobCreateError clusterController)
    (jobIsComplete clusterController) (findJobContainerStatus clusterController)
    (newReleaseJobBase clusterController).

(** The verification job of the digest exists and runs. *)
Definition runningJobWorld : World :=
  world {[ "t" := digestRecord ]} {[ "verify-abcd" := auditJob "verify-abcd" None ]}.

(** Nothing tracked. *)
Definition emptyWorld : World := world ∅ ∅.

(** Two digests that differ in their last eight characters, and one under
    another algorithm. *)
Definition hex56 : string := "0123456789abcdef0123456789abcdef0123456789abcdef01234567".
Definition longDigestA : string := "sha256:" +:+ hex56 +:+ "89abcdef".
Definition longDigestB : string := "sha256:" +:+ hex56 +:+ "00000000".
Definition otherAlgorithmDigest : string := "sha512:abcd".

(** Container statuses, the terminated ones latest first. *)
Definition terminatedAt (finished code : Z) (message : string) : ContainerStatus :=
  {| Terminated := Some {| FinishedAt := finished; ExitCode := code;
                           termMessage := message |} |}.
Definition waiting : ContainerStatus := {| Terminated := None |}.
Definition statuses : list ContainerStatus :=
  [waiting; terminatedAt 5 1 "signature invalid"; terminatedAt 3 1 "pull failed"].

(** A failed job with an active pod, whose pod lookup answers [statuses]. *)
Definition activeJob : Job :=
  {| jobName := "verify-abcd";
     jobLabels := Some {[ "release.openshift.io/purpose" := "audit" ]};
     jobAnnotations := Some ∅; jobContainers := [];
     jobActive := 1; jobCompletionTime := None |}.

Definition podsController : Controller :=
  custom clusterController (loadReleaseForSync clusterController)
    (execVerify clusterController) (jobCreateError clusterController)
    (fun _ => (false, true)) (fun _ _ _ => (statuses, None))
    (newReleaseJobBase clusterController).

End Examples.

(** * Proofs

    ** Go strings *)

Lemma slice_to_length (n : nat) (s : string) :
  (String.length (slice_to n s) <= n)%nat.
Proof.
  revert s; induction n as [|n IH]; intros [|a s]; simpl; try lia.
  specialize (IH s). lia.
Qed.

Lemma slice_to_all (n : nat) (s : string) :
  (String.length s <= n)%nat -> slice_to n s = s.
Proof.
  revert s; induction n as [|n IH]; intros [|a s]; simpl; intros Hlen;
    try reflexivity; try lia.
  f_equal. apply IH. lia.
Qed.

Lemma contains_slice_to (a : Ascii.ascii) (n : nat) (s : string) :
  contains a s = false -> contains a (slice_to n s) = false.
Proof.
  revert s; induction n as [|n IH]; intros [|b s]; simpl; try reflexivity.
  intros [Hb Hs]%orb_false_iff. rewrite Hb. simpl. auto.
Qed.

Lemma contains_Replace (s : string) (old new : Ascii.ascii) :
  old <> new -> contains old (Replace s old new) = false.
Proof.
  intros Hne. induction s as [|a s IH]; simpl; [reflexivity|].
  rewrite IH, orb_false_r.
  destruct (Ascii.eqb a old) eqn:E.
  - apply Ascii.eqb_neq. congruence.
  - exact E.
Qed.

Lemma Replace_absent (s : string) (old new : Ascii.ascii) :
  contains old s = false -> Replace s old new = s.
Proof.
  induction s as [|a s IH]; simpl; [reflexivity|].
  intros [Ha Hs]%orb_false_iff. rewrite Ha, IH; auto.
Qed.

Lemma cut_None_contains (sep : Ascii.ascii) (s : string) :
  cut sep s = None <-> contains sep s = false.
Proof.
  induction s as [|a s IH]; simpl; [tauto|].
  destruct (Ascii.eqb a sep); simpl.
  - split; discriminate.
  - rewrite <- IH. destruct (cut sep s) as [[b r]|]; split; intros H;
      first [discriminate | reflexivity].
Qed.

Lemma cut_Some_append (sep : Ascii.ascii) (s before after : string) :
  cut sep s = Some (before, after) ->
  s = before +:+ String sep after /\ contains sep before = false.
Proof.
  revert before; induction s as [|a s IH]; simpl; intros before; [discriminate|].
  destruct (Ascii.eqb a sep) eqn:E.
  - intros [= <- <-]. apply Ascii.eqb_eq in E. subst. auto.
  - destruct (cut sep s) as [[b r]|]; [|discriminate].
    intros [= <- <-]. destruct (IH b eq_refl) as [-> Hb].
    simpl. rewrite E, Hb. auto.
Qed.

Lemma prefix_slice_to (p s : string) (n : nat) :
  (String.length p <= n)%nat -> String.prefix p (slice_to n (p +:+ s)) = true.
Proof.
  revert n; induction p as [|a p IH]; intros n Hn.
  - change ("" +:+ s) with s. destruct (slice_to n s); reflexivity.
  - change (String a p +:+ s) with (String a (p +:+ s)).
    destruct n as [|n]; simpl in *; [lia|].
    destruct (Ascii.ascii_dec a a); [|congruence]. apply IH. lia.
Qed.

Lemma auditVerifyJobName_eq (id : string) :
  auditVerifyJobName id =
  slice_to 63 (Replace (match cut colon id with
                        | Some (_, rest) => "verify-" +:+ rest
                        | None => id
                        end) colon dash).
Proof.
  unfold auditVerifyJobName, SplitN2, len.
  destruct (cut colon id) as [[b r]|];
    match goal with |- (if ?b then _ else _) = _ => destruct b eqn:E end;
    try reflexivity; symmetry; apply slice_to_all; apply Z.ltb_ge in E; lia.
Qed.

(** C8 (amended): the name of the verification job is a function of the
    record's digest alone: it has no colon and at most 63 bytes; for a digest
    with a colon it is "verify-" followed by the text after the first colon,
    colons replaced with dashes, cut to 63 bytes, so it starts with
    "verify-"; for a digest without colon it is the digest itself cut to 63
    bytes, with no prefix added.  [ensureAuditVerifyJob] looks the job up
    under that name whatever the controller, the release and the world. *)
Theorem auditVerifyJobName_spec (c : Controller) (release : ReleaseT)
    (record : AuditRecord) (w : World) :
  let jobname := auditVerifyJobName (ID record) in
  contains colon jobname = false /\
  len jobname <= 63 /\
  match cut colon (ID record) with
  | Some (_, rest) =>
      jobname = slice_to 63 ("verify-" +:+ Replace rest colon dash) /\
      String.prefix "verify-" jobname = true
  | None => jobname = slice_to 63 (ID record)
  end /\
  exists rest,
    trace (snd (ensureAuditVerifyJob c release record w))
    = (trace w ++ EvGetJob jobname :: rest)%list.
Proof.
  intros jobname. subst jobname. split; [|split; [|split]].
  - rewrite auditVerifyJobName_eq.
    apply contains_slice_to, contains_Replace. discriminate.
  - rewrite auditVerifyJobName_eq. unfold len.
    match goal with |- context [slice_to 63 ?s] => pose proof (slice_to_length 63 s) end.
    lia.
  - rewrite auditVerifyJobName_eq.
    destruct (cut colon (ID record)) as [[b r]|] eqn:E.
    + split; [reflexivity|]. simpl Replace.
      apply (prefix_slice_to "verify-" (Replace r colon dash) 63). simpl. lia.
    + apply cut_None_contains in E. rewrite (Replace_absent _ _ _ E). reflexivity.
  - unfold ensureAuditVerifyJob, ensureJob, emit, modify, gets, bind, ret, panic.
    simpl.
    destruct (jobs w !! auditVerifyJobName (ID record)); simpl.
    + eexists; reflexivity.
    + destruct (verifyJobCreateFn c _ release record); simpl; [|eexists; reflexivity].
      destruct (jobCreateError c a); simpl; rewrite <- app_assoc; eexists; reflexivity.
Qed.

(** C8 (as stated) fails: a digest without colon gets no "verify-" prefix. *)
Lemma auditVerifyJobName_no_prefix :
  auditVerifyJobName "abc" = "abc" /\
  String.prefix "verify-" (auditVerifyJobName "abc") = false.
Proof. split; reflexivity. Qed.

(** ** Rules for [post] *)

Lemma post_ret {A} (a : A) w Q : Q (Returned a) w -> post (ret a) w Q.
Proof. exact (fun H => H). Qed.

Lemma post_panic {A} v w (Q : outcome A -> World -> Prop) :
  Q (Panicked v) w -> post (panic v) w Q.
Proof. exact (fun H => H). Qed.

Lemma post_gets {A} (f : World -> A) w Q : Q (Returned (f w)) w -> post (gets f) w Q.
Proof. exact (fun H => H). Qed.

Lemma post_modify (f : World -> World) w Q : Q (Returned tt) (f w) -> post (modify f) w Q.
Proof. exact (fun H => H). Qed.

Lemma post_timeNow c w Q :
  Q (Returned (clock c (ticks w))) (set_ticks S w) -> post (timeNow c) w Q.
Proof. exact (fun H => H). Qed.

Lemma post_bind {A B} (m : M A) (k : A -> M B) w Q :
  post m w (fun o w' => match o with
                        | Returned a => post (k a) w' Q
                        | Panicked v => Q (Panicked v) w'
                        end) ->
  post (bind m k) w Q.
Proof.
  unfold post, bind. destruct (m w) as [[a|v] w']; simpl; auto.
Qed.

Lemma post_weaken {A} (m : M A) w (Q Q' : outcome A -> World -> Prop) :
  post m w Q -> (forall o w', Q o w' -> Q' o w') -> post m w Q'.
Proof. unfold post. auto. Qed.

Ltac unfold_go :=
  unfold syncAuditTag, signRelease, ensureAuditVerifyJob, ensureJob,
    ensureJobTerminationMessageRetrieved, countAuditVerifyJobs, HasSignature, PutSignature,
    SetFailure, Get, AddAfter, loadRelease, queueAdd, emit.

(** Case analysis on what the program looks at; an equation in the context
    that decides the case is used instead. *)
Ltac wp_case x :=
  first
    [ match goal with H : x = _ |- _ => rewrite H end
    | destruct x eqn:? ].

Ltac simpl_world :=
  cbn [records trackerQueue auditQueue signatures jobs ticks trace
       set_records set_trackerQueue set_auditQueue set_signatures set_jobs set_ticks
       set_trace negb orb andb].

Ltac wp_step :=
  lazymatch goal with
  | |- post (bind _ _) _ _ => apply post_bind
  | |- post (ret _) _ _ => apply post_ret
  | |- post (panic _) _ _ => apply post_panic
  | |- post (gets _) _ _ => apply post_gets
  | |- post (modify _) _ _ => apply post_modify
  | |- post (timeNow _) _ _ => apply post_timeNow
  | |- post (match ?x with _ => _ end) _ _ => wp_case x
  | |- post (let (_, _) := ?x in _) _ _ => wp_case x
  end; cbv beta iota zeta; simpl_world.

Ltac wp := unfold_go; repeat wp_step.

(** The events added, read off the trace of the world reached. *)
Ltac trace_evs :=
  simpl; rewrite <- ?app_assoc; simpl;
  first [ eexists; split; [reflexivity|]
        | exists []; split; [symmetry; apply app_nil_r|] ].

Lemma len_zero (s : string) : (len s =? 0) = true <-> s = "".
Proof.
  unfold len. destruct s; simpl; split; intros H; try reflexivity; discriminate.
Qed.

Lemma len_nonzero (s : string) : (len s =? 0) = false <-> s <> "".
Proof.
  rewrite <- len_zero. destruct (len s =? 0); split; intros H; congruence.
Qed.

Lemma count_app {A} (p : A -> bool) (l1 l2 : list A) :
  count p (l1 ++ l2) = (count p l1 + count p l2)%nat.
Proof. induction l1 as [|x l1 IH]; simpl; [reflexivity|]. rewrite IH. lia. Qed.

Lemma new_events_app (w w' : World) (evs : list Event) :
  trace w' = (trace w ++ evs)%list -> new_events w w' = evs.
Proof. intros H. unfold new_events. rewrite H. apply drop_app_length. Qed.

(** ** syncAudit *)

Lemma syncAudit_panics (c : Controller) (key : queueKey) (w : World) :
  syncAudit c key w =
    (Panicked (panicValue c (recover (fst (syncAudit_body c key w)))),
     snd (syncAudit_body c key w)).
Proof.
  unfold syncAudit, panic. destruct (syncAudit_body c key w) as [o w']. reflexivity.
Qed.

(** C4 (the code departs from the claim): when the statements of
    [syncAudit] return normally, with the load error or nil, [syncAudit] does
    not return: the deferred function runs all the same, [recover()] answers
    nil and [panic(nil)] panics. *)
Theorem syncAudit_panics_on_return (c : Controller) (key : queueKey) (w w' : World)
    (result : option string) :
  syncAudit_body c key w = (Returned result, w') ->
  syncAudit c key w = (Panicked (if panicNilError c then PPanicNilError else PNil), w').
Proof.
  intros Hbody. rewrite syncAudit_panics, Hbody. reflexivity.
Qed.

Lemma syncAudit_panics_on_return_witness :
  syncAudit_body Examples.failingLoad {| namespace := "ocp"; name := "release" |}
    (Examples.world ∅ ∅)
  = (Returned (Some "not found"),
     set_trace (fun _ => [EvLoadRelease "ocp" "release"]) (Examples.world ∅ ∅)) /\
  syncAudit Examples.failingLoad {| namespace := "ocp"; name := "release" |}
    (Examples.world ∅ ∅)
  = (Panicked PNil, set_trace (fun _ => [EvLoadRelease "ocp" "release"]) (Examples.world ∅ ∅)).
Proof.
  split; [reflexivity|].
  apply (syncAudit_panics_on_return Examples.failingLoad _ _ _ (Some "not found")).
  reflexivity.
Defined.

(** A panic of the statements of [syncAudit] goes through the deferred
    function with its value. *)
Lemma syncAudit_repanics (c : Controller) (key : queueKey) (w w' : World) (v : PanicValue) :
  syncAudit_body c key w = (Panicked v, w') ->
  syncAudit c key w = (Panicked (panicValue c v), w').
Proof.
  intros Hbody. rewrite syncAudit_panics, Hbody. reflexivity.
Qed.

(** ** syncAuditTag: records that are failed or have no digest *)

Lemma syncAuditTag_failed (c : Controller) (tag : string) (w : World)
    (record : AuditRecord) (f : AuditFailure) :
  records w !! tag = Some record ->
  Failure record = Some f ->
  syncAuditTag c tag w = (Returned None, w).
Proof.
  intros Hrec Hfail. unfold syncAuditTag, Get, bind, gets. rewrite Hrec, Hfail. reflexivity.
Qed.

(** C5: a tracked record without failure and with an empty digest is
    marked failed by its reconciliation: afterwards its failure is
    {VerificationFailed, 'Release <tag> has no digest and cannot be
    verified'} and its time the reading of the clock, its other fields and
    the other records are as before; the reconciliation returns nil, calls
    no collaborator and leaves the queues, the store and the jobs as they
    are. *)
Theorem syncAuditTag_no_digest (c : Controller) (tag : string) (w : World)
    (record : AuditRecord) :
  tracker_named w ->
  records w !! tag = Some record ->
  Failure record = None ->
  ID record = "" ->
  exists w' r',
    syncAuditTag c tag w = (Returned None, w') /\
    records w' !! tag = Some r' /\
    Failure r' = Some {| Reason := "VerificationFailed";
                         Message := "Release " +:+ tag +:+
                                    " has no digest and cannot be verified" |} /\
    At r' = clock c (ticks w) /\
    Name r' = Name record /\ ID r' = ID record /\ Location r' = Location record /\
    Release r' = Release record /\
    ImageStreamNamespace r' = ImageStreamNamespace record /\
    ImageStreamName r' = ImageStreamName record /\
    (forall k, k ≠ tag -> records w' !! k = records w !! k) /\
    trace w' = trace w /\
    signatures w' = signatures w /\
    jobs w' = jobs w /\
    auditQueue w' = auditQueue w /\
    trackerQueue w' = trackerQueue w.
Proof.
  intros Hnamed Hrec Hfail Hid.
  pose proof (Hnamed _ _ Hrec) as Hname.
  eexists. eexists. split.
  - unfold syncAuditTag, Get, SetFailure, timeNow, bind, gets, modify, ret.
    rewrite Hrec, Hfail, Hid, Hname. simpl. rewrite Hrec. reflexivity.
  - simpl. split; [apply lookup_insert_eq|]. simpl.
    repeat split; try reflexivity.
    intros k Hk. apply lookup_insert_ne. congruence.
Qed.

Lemma syncAuditTag_no_digest_witness :
  exists w' r',
    syncAuditTag Examples.localController "t" Examples.noDigestWorld = (Returned None, w') /\
    records w' !! "t" = Some r' /\
    Failure r' = Some {| Reason := "VerificationFailed";
                         Message := "Release t has no digest and cannot be verified" |} /\
    At r' = 5 /\
    Name r' = Name Examples.noDigestRecord /\ ID r' = ID Examples.noDigestRecord /\
    Location r' = Location Examples.noDigestRecord /\
    Release r' = Release Examples.noDigestRecord /\
    ImageStreamNamespace r' = ImageStreamNamespace Examples.noDigestRecord /\
    ImageStreamName r' = ImageStreamName Examples.noDigestRecord /\
    (forall k, k ≠ "t" -> records w' !! k = records Examples.noDigestWorld !! k) /\
    trace w' = trace Examples.noDigestWorld /\
    signatures w' = signatures Examples.noDigestWorld /\
    jobs w' = jobs Examples.noDigestWorld /\
    auditQueue w' = auditQueue Examples.noDigestWorld /\
    trackerQueue w' = trackerQueue Examples.noDigestWorld.
Proof.
  apply (syncAuditTag_no_digest Examples.localController "t" Examples.noDigestWorld
           Examples.noDigestRecord).
  - intros k r Hk. simpl in Hk.
    apply lookup_singleton_Some in Hk as [<- <-]. reflexivity.
  - reflexivity.
  - reflexivity.
  - reflexivity.
Defined.

(** ** syncAuditTag: signing *)

Lemma syncAuditTag_signed_post (c : Controller) (tag : string) (w : World)
    (record : AuditRecord) :
  records w !! tag = Some record ->
  ID record ∈ signatures w ->
  post (syncAuditTag c tag) w (fun _ w' =>
    exists evs, trace w' = (trace w ++ evs)%list /\
      Forall (fun e => isVerification e = false /\ isSigning e = false) evs /\
      signatures w' = signatures w /\ jobs w' = jobs w /\ auditQueue w' = auditQueue w).
Proof.
  intros Hrec Hsigned.
  assert (Hdec : bool_decide (ID record ∈ signatures w) = true)
    by (apply bool_decide_eq_true; exact Hsigned).
  unfold_go. repeat wp_step.
  all: try (trace_evs; repeat constructor).
Qed.

Lemma syncAuditTag_signing (c : Controller) (tag : string) (w : World) (d : string) :
  post (syncAuditTag c tag) w (fun _ w' =>
    exists evs, trace w' = (trace w ++ evs)%list /\
      signatures w ⊆ signatures w' /\
      (count (isSign d) evs <= 1)%nat /\
      (count (isPutSignature d) evs <= 1)%nat /\
      (d ∈ signatures w -> count (isSign d) evs = O /\ count (isPutSignature d) evs = O)).
Proof.
  unfold_go. repeat wp_step.
  all: trace_evs.
  all: split; [set_solver|].
  all: simpl.
  all: repeat match goal with
       | H : bool_decide (_ ∈ _) = false |- _ => apply bool_decide_eq_false in H
       end.
  all: repeat case_bool_decide; subst; simpl; repeat split; try lia; try tauto.
Qed.

Lemma foldM_syncTag_frame (c : Controller) (release : ReleaseT) (now : Z)
    (tags : list TagReference) (found : gset string) (w : World) :
  post (foldM (syncTag c release now) found tags) w (fun o w' =>
    (exists found', o = Returned found') /\
    trace w' = trace w /\ signatures w' = signatures w /\ jobs w' = jobs w /\
    auditQueue w' = auditQueue w).
Proof.
  revert found w. induction tags as [|tag tags IH]; intros found w; simpl.
  - apply post_ret. eauto 10.
  - apply post_bind. unfold syncTag. unfold_go. repeat wp_step.
    all: eapply post_weaken; [apply IH|]; simpl; intros o w' H; exact H.
Qed.

Lemma Sync_frame (c : Controller) (release : ReleaseT) (w : World) :
  post (Sync c release) w (fun o w' =>
    o = Returned tt /\
    trace w' = trace w /\ signatures w' = signatures w /\ jobs w' = jobs w /\
    auditQueue w' = auditQueue w).
Proof.
  unfold Sync. wp_step; [apply post_ret; auto 10|].
  wp_step. wp_step. wp_step.
  eapply post_weaken; [apply foldM_syncTag_frame|].
  simpl. intros o w' ([found ->] & Ht & Hs & Hj & Hq).
  wp_step. auto 10.
Qed.

Lemma step_signing (s : Step) (w : World) (d : string) :
  exists evs, trace (step s w) = (trace w ++ evs)%list /\
    signatures w ⊆ signatures (step s w) /\
    (d ∈ signatures w -> count (isSign d) evs = O /\ count (isPutSignature d) evs = O).
Proof.
  destruct s as [c tag|c release]; simpl.
  - destruct (syncAuditTag_signing c tag w d) as (evs & Ht & Hs & _ & _ & H0).
    exists evs. auto.
  - destruct (Sync_frame c release w) as (_ & Ht & Hs & _).
    exists []. rewrite app_nil_r, Hs. simpl. auto.
Qed.

Lemma run_signed (steps : list Step) (w : World) (d : string) :
  d ∈ signatures w ->
  exists evs, trace (run steps w) = (trace w ++ evs)%list /\
    count (isSign d) evs = O /\ count (isPutSignature d) evs = O.
Proof.
  revert w. induction steps as [|s steps IH]; intros w Hd; simpl.
  - exists []. rewrite app_nil_r. auto.
  - destruct (step_signing s w d) as (evs1 & Ht1 & Hs1 & Hzero).
    specialize (Hzero Hd). destruct Hzero as [Hsign1 Hput1].
    destruct (IH (step s w)) as (evs2 & Ht2 & Hsign2 & Hput2); [set_solver|].
    exists (evs1 ++ evs2)%list. rewrite !count_app, Ht2, Ht1, app_assoc.
    split; [reflexivity|]. lia.
Qed.

(** C1: when the store holds a signature for the digest of the record of a
    tag, the reconciliation of the tag calls no verification backend, no
    [Sign] and no [PutSignature], and leaves the store and the jobs as they
    are; and once a reconciliation of the tag leaves the store holding the
    signature, [Sign] and [PutSignature] are called at most once for that
    digest over that reconciliation and any reconciliations and tracker
    syncs that follow, and not at all in those that follow. *)
Theorem at_most_once_signing (c : Controller) (tag : string) (w : World)
    (record : AuditRecord) :
  records w !! tag = Some record ->
  let w1 := snd (syncAuditTag c tag w) in
  (ID record ∈ signatures w ->
     Forall (fun e => isVerification e = false /\ isSigning e = false) (new_events w w1) /\
     signatures w1 = signatures w /\ jobs w1 = jobs w) /\
  (ID record ∈ signatures w1 ->
     forall steps,
       (count (isSign (ID record)) (new_events w (run steps w1)) <= 1)%nat /\
       (count (isPutSignature (ID record)) (new_events w (run steps w1)) <= 1)%nat /\
       count (isSign (ID record)) (new_events w1 (run steps w1)) = O /\
       count (isPutSignature (ID record)) (new_events w1 (run steps w1)) = O).
Proof.
  intros Hrec w1. split.
  - intros Hsigned.
    destruct (syncAuditTag_signed_post c tag w record Hrec Hsigned)
      as (evs & Ht & Hevs & Hs & Hj & _).
    unfold w1. rewrite (new_events_app _ _ _ Ht). auto.
  - intros Hsigned steps.
    destruct (syncAuditTag_signing c tag w (ID record)) as (evs1 & Ht1 & _ & Hsign1 & Hput1 & _).
    destruct (run_signed steps w1 (ID record) Hsigned) as (evs2 & Ht2 & Hsign2 & Hput2).
    rewrite (new_events_app _ _ _ Ht2).
    assert (Ht : trace (run steps w1) = (trace w ++ (evs1 ++ evs2))%list).
    { rewrite Ht2. unfold w1. rewrite Ht1, app_assoc. reflexivity. }
    rewrite (new_events_app _ _ _ Ht), !count_app. lia.
Qed.

Lemma at_most_once_signing_witness :
  (Forall (fun e => isVerification e = false /\ isSigning e = false)
     (new_events Examples.signedWorld
        (snd (syncAuditTag Examples.localController "t" Examples.signedWorld))) /\
   signatures (snd (syncAuditTag Examples.localController "t" Examples.signedWorld))
   = signatures Examples.signedWorld /\
   jobs (snd (syncAuditTag Examples.localController "t" Examples.signedWorld))
   = jobs Examples.signedWorld) /\
  ((count (isSign (ID Examples.digestRecord))
      (new_events Examples.unsignedWorld
         (run Examples.twoReconciliations
            (snd (syncAuditTag Examples.localController "t" Examples.unsignedWorld))))
    <= 1)%nat /\
   (count (isPutSignature (ID Examples.digestRecord))
      (new_events Examples.unsignedWorld
         (run Examples.twoReconciliations
            (snd (syncAuditTag Examples.localController "t" Examples.unsignedWorld))))
    <= 1)%nat /\
   count (isSign (ID Examples.digestRecord))
     (new_events (snd (syncAuditTag Examples.localController "t" Examples.unsignedWorld))
        (run Examples.twoReconciliations
           (snd (syncAuditTag Examples.localController "t" Examples.unsignedWorld))))
   = O /\
   count (isPutSignature (ID Examples.digestRecord))
     (new_events (snd (syncAuditTag Examples.localController "t" Examples.unsignedWorld))
        (run Examples.twoReconciliations
           (snd (syncAuditTag Examples.localController "t" Examples.unsignedWorld))))
   = O).
Proof.
  split.
  - apply (proj1 (at_most_once_signing Examples.localController "t" Examples.signedWorld
                    Examples.digestRecord eq_refl)).
    apply (bool_decide_unpack _). vm_compute. exact I.
  - apply (proj2 (at_most_once_signing Examples.localController "t" Examples.unsignedWorld
                    Examples.digestRecord eq_refl)).
    apply (bool_decide_unpack _). vm_compute. exact I.
Defined.

(** ** syncAuditTag: the verification backend *)

(** The facts of [reachesBackend], in the form the program tests them. *)
Lemma reachesBackend_tests c w tag record release :
  reachesBackend c w tag record release ->
  records w !! tag = Some record /\
  Failure record = None /\
  (len (ID record) =? 0) = false /\
  loadReleaseForSync c (ImageStreamNamespace record) (ImageStreamName record)
    = Returned (Some release, None) /\
  bool_decide (ID record ∈ signatures w) = false.
Proof.
  intros (Hrec & Hfail & Hid & Hload & Hsig). repeat split; auto.
  - apply len_nonzero. exact Hid.
  - apply bool_decide_eq_false. exact Hsig.
Qed.

Lemma clusterJobMode_tests c release :
  clusterJobMode c release ->
  (len (auditImage c release) =? 0) = false /\
  bool_decide (auditImage c release = "local") = false.
Proof.
  intros [Hne Hlocal]. split.
  - apply len_nonzero. exact Hne.
  - apply bool_decide_eq_false. exact Hlocal.
Qed.


Lemma admitted_tests c w :
  ~ throttled c w ->
  jobListError c = None /\ (unfinishedAuditJobs c w >? 2) = false.
Proof.
  intros Hnot. split.
  - destruct (jobListError c) eqn:E; [|reflexivity].
    exfalso. apply Hnot. left. congruence.
  - destruct (unfinishedAuditJobs c w >? 2) eqn:E; [|reflexivity].
    exfalso. apply Hnot. right. apply Z.gtb_lt in E. lia.
Qed.

Ltac backend_tests Hreach Hmode :=
  apply reachesBackend_tests in Hreach;
  destruct Hreach as (Hrec & Hfail & Hid & Hload & Hsig);
  apply clusterJobMode_tests in Hmode;
  destruct Hmode as [Hlen Hlocal];
  unfold auditImage in Hlen, Hlocal.




(** C9: the image the verification job is built with is the release's
    OverrideCLIImage, whatever image is pinned on the controller: when the
    reconciliation creates the job, the job created is the one built from
    [newReleaseJobBase] at the override; at an empty override, with the
    cluster-job mode selected by the pinned image, at the empty image. *)
Theorem verify_job_image_is_override c tag w record release override job :
  reachesBackend c w tag record release ->
  clusterJobMode c release ->
  ~ throttled c w ->
  jobs w !! auditVerifyJobName (ID record) = None ->
  OverrideCLIImage (Config release) = override ->
  verifyJobFrom c
    (newReleaseJobBase c (auditVerifyJobName (ID record)) override
       (PullSecretName (Config release)))
    release record = Returned job ->
  exists rest,
    new_events w (snd (syncAuditTag c tag w))
    = ([EvLoadRelease (ImageStreamNamespace record) (ImageStreamName record);
        EvHasSignature (ID record); EvListJobs;
        EvGetJob (auditVerifyJobName (ID record)); EvCreateJob job] ++ rest)%list.
Proof.
  intros Hreach Hmode Hadm Hnone Hover Hbuild.
  backend_tests Hreach Hmode.
  apply admitted_tests in Hadm. destruct Hadm as [Herr Hcount].
  unfold unfinishedAuditJobs in Hcount.
  assert (Hcreate : verifyJobCreateFn c (auditVerifyJobName (ID record)) release record
                    = Returned job).
  { unfold verifyJobCreateFn. rewrite Hover. exact Hbuild. }
  assert (Hpost : post (syncAuditTag c tag) w (fun _ w' =>
      exists rest,
        trace w' = (trace w ++
                    [EvLoadRelease (ImageStreamNamespace record) (ImageStreamName record);
                     EvHasSignature (ID record); EvListJobs;
                     EvGetJob (auditVerifyJobName (ID record)); EvCreateJob job] ++ rest)%list)).
  { unfold_go. repeat wp_step.
    all: simpl; rewrite <- ?app_assoc; simpl; eexists; repeat f_equal. }
  destruct Hpost as [rest Ht]. exists rest. apply new_events_app. exact Ht.
Qed.

(** C10: with no image pinned on the controller and a release whose
    OverrideCLIImage is "local", the reconciliation runs the local verify
    command on the record's location; it calls no job API and requeues
    nothing, and what follows the command is signing only. *)
Theorem override_local_selects_local c tag w record release :
  reachesBackend c w tag record release ->
  cliImageForAudit c = "" ->
  OverrideCLIImage (Config release) = "local" ->
  exists rest,
    new_events w (snd (syncAuditTag c tag w))
    = ([EvLoadRelease (ImageStreamNamespace record) (ImageStreamName record);
        EvHasSignature (ID record); EvExecVerify (Location record)] ++ rest)%list /\
    Forall (fun e => isSigning e = true) rest /\
    jobs (snd (syncAuditTag c tag w)) = jobs w /\
    auditQueue (snd (syncAuditTag c tag w)) = auditQueue w.
Proof.
  intros Hreach Hpin Hover.
  apply reachesBackend_tests in Hreach.
  destruct Hreach as (Hrec & Hfail & Hid & Hload & Hsig).
  assert (Hpost : post (syncAuditTag c tag) w (fun _ w' =>
      exists rest,
        trace w' = (trace w ++
                    [EvLoadRelease (ImageStreamNamespace record) (ImageStreamName record);
                     EvHasSignature (ID record); EvExecVerify (Location record)] ++ rest)%list /\
        Forall (fun e => isSigning e = true) rest /\
        jobs w' = jobs w /\ auditQueue w' = auditQueue w)).
  { assert (Himg : auditImage c release = "local")
      by (unfold auditImage; rewrite Hpin; exact Hover).
    assert (Hlen : (len (auditImage c release) =? 0) = false)
      by (rewrite Himg; reflexivity).
    assert (Hlocal : bool_decide (auditImage c release = "local") = true)
      by (apply bool_decide_eq_true; exact Himg).
    unfold auditImage in Hlen, Hlocal.
    unfold_go. repeat wp_step.
    all: simpl; rewrite <- ?app_assoc; simpl; eexists; split; [repeat f_equal|];
      auto using Forall_nil, Forall_cons. }
  destruct Hpost as (rest & Ht & Hrest & Hj & Hq). exists rest.
  rewrite (new_events_app _ _ _ Ht). auto.
Qed.



(** C2 (the code departs from the claim): with two unfinished audit jobs
    listed, the reconciliation of a tag whose digest has no job yet creates
    the job: three audit jobs are unfinished afterwards. *)
Theorem third_job_admitted :
  unfinishedAuditJobs Examples.clusterController Examples.twoJobsWorld = 2 /\
  jobs Examples.twoJobsWorld !! auditVerifyJobName Examples.digest = None /\
  jobs (snd (syncAuditTag Examples.clusterController "t" Examples.twoJobsWorld))
    !! auditVerifyJobName Examples.digest = Some Examples.verifyJob /\
  unfinishedAuditJobs Examples.clusterController
    (snd (syncAuditTag Examples.clusterController "t" Examples.twoJobsWorld)) = 3.
Proof.
  repeat split; vm_compute; reflexivity.
Qed.

Lemma verify_job_image_is_override_witness :
  exists rest,
    new_events Examples.unsignedWorld
      (snd (syncAuditTag Examples.clusterController "t" Examples.unsignedWorld))
    = ([EvLoadRelease (ImageStreamNamespace Examples.digestRecord)
          (ImageStreamName Examples.digestRecord);
        EvHasSignature (ID Examples.digestRecord); EvListJobs;
        EvGetJob (auditVerifyJobName (ID Examples.digestRecord));
        EvCreateJob Examples.verifyJob] ++ rest)%list.
Proof.
  apply (verify_job_image_is_override Examples.clusterController "t" Examples.unsignedWorld
           Examples.digestRecord Examples.plainRelease "" Examples.verifyJob).
  - repeat split; try reflexivity; try discriminate; try (simpl; set_solver).
  - split; vm_compute; discriminate.
  - intros [H|H]; [apply H; reflexivity|vm_compute in H; discriminate].
  - reflexivity.
  - reflexivity.
  - reflexivity.
Defined.

Lemma override_local_selects_local_witness :
  exists rest,
    new_events Examples.unsignedWorld
      (snd (syncAuditTag Examples.overrideLocalController "t" Examples.unsignedWorld))
    = ([EvLoadRelease (ImageStreamNamespace Examples.digestRecord)
          (ImageStreamName Examples.digestRecord);
        EvHasSignature (ID Examples.digestRecord);
        EvExecVerify (Location Examples.digestRecord)] ++ rest)%list /\
    Forall (fun e => isSigning e = true) rest /\
    jobs (snd (syncAuditTag Examples.overrideLocalController "t" Examples.unsignedWorld))
    = jobs Examples.unsignedWorld /\
    auditQueue (snd (syncAuditTag Examples.overrideLocalController "t" Examples.unsignedWorld))
    = auditQueue Examples.unsignedWorld.
Proof.
  apply (override_local_selects_local Examples.overrideLocalController "t"
           Examples.unsignedWorld Examples.digestRecord Examples.localRelease).
  - repeat split; try reflexivity; try discriminate; try (simpl; set_solver).
  - reflexivity.
  - reflexivity.
Defined.

(** ** AuditTracker.Sync *)

Lemma refreshed_idem (now : Z) (r : AuditRecord) :
  refreshed now (refreshed now r) = refreshed now r.
Proof. reflexivity. Qed.

Lemma syncTag_skip c release now found tag w :
  recognisedTag c tag = false ->
  syncTag c release now found tag w = (Returned found, w).
Proof.
  unfold recognisedTag, syncTag. intros H.
  destruct (tagAnnotations tag !! releaseAnnotationSource c) eqn:Esrc; [|reflexivity].
  destruct (len (tagName tag) =? 0) eqn:Elen; [reflexivity|].
  rewrite bool_decide_eq_true_2 in H by eauto. simpl in H.
  apply negb_false_iff in H. rewrite H. reflexivity.
Qed.

Lemma syncTag_recognised c release now found tag w :
  recognisedTag c tag = true ->
  syncTag c release now found tag w =
  (let n := tagName tag in
   let found := found ∪ {[ n ]} in
   match records w !! n with
   | None =>
       (Returned found,
        set_trackerQueue (fun q => (q ++ [n])%list)
          (set_records (insert n (freshRecord c release now n)) w))
   | Some existing =>
       let w1 := set_ticks S w in
       let w2 := if expired c (ticks w) existing
                 then set_records (insert n (refreshed now existing)) w1 else w1 in
       let w3 := if expired c (ticks w) existing || drifted c release n existing
                 then set_trackerQueue (fun q => (q ++ [n])%list) w2 else w2 in
       (Returned found, w3)
   end).
Proof.
  unfold recognisedTag, syncTag. intros H.
  apply andb_true_iff in H as [H Hphase]. apply andb_true_iff in H as [Hsrc Hlen].
  apply bool_decide_eq_true in Hsrc as [src Hsrc]. rewrite Hsrc.
  apply negb_true_iff in Hlen. rewrite Hlen.
  apply negb_true_iff in Hphase. rewrite Hphase.
  cbv zeta. unfold bind, gets, modify, ret, queueAdd, timeNow, expired, drifted, freshRecord,
    refreshed.
  destruct (records w !! tagName tag) as [ex|]; [|reflexivity].
  simpl.
  destruct (GoTime.Sub (clock c (ticks w)) (At ex) >? 12 * GoTime.Hour); simpl.
  - reflexivity.
  - repeat case_bool_decide; reflexivity.
Qed.

(** What one recognized tag does to the records and to the queue. *)
Lemma syncTag_facts c release now found tag w :
  recognisedTag c tag = true ->
  let n := tagName tag in
  let w' := snd (syncTag c release now found tag w) in
  fst (syncTag c release now found tag w) = Returned (found ∪ {[ n ]}) /\
  (forall k, k ≠ n -> records w' !! k = records w !! k) /\
  records w' !! n =
    Some (match records w !! n with
          | None => freshRecord c release now n
          | Some ex => if expired c (ticks w) ex then refreshed now ex else ex
          end) /\
  trackerQueue w' =
    (trackerQueue w ++
     match records w !! n with
     | None => [n]
     | Some ex => if expired c (ticks w) ex || drifted c release n ex then [n] else []
     end)%list.
Proof.
  intros Hrec n w'. subst w'. rewrite (syncTag_recognised _ _ _ _ _ _ Hrec). fold n.
  cbv zeta.
  destruct (records w !! n) as [ex|] eqn:E.
  - destruct (expired c (ticks w) ex), (drifted c release n ex); simpl;
      repeat split; intros;
      rewrite ?lookup_insert_eq, ?lookup_insert_ne, ?app_nil_r by congruence; auto.
  - simpl. repeat split; intros;
      rewrite ?lookup_insert_eq, ?lookup_insert_ne by congruence; auto.
Qed.

Lemma foldM_cons {A B} (f : A -> B -> M A) (a : A) (b : B) (l : list B) (w : World) :
  foldM f a (b :: l) w =
  match f a b w with
  | (Returned a', w') => foldM f a' l w'
  | (Panicked v, w') => (Panicked v, w')
  end.
Proof. reflexivity. Qed.

(** One step of the loop, recognized or not. *)
Lemma syncTags_step c release now found tag tags w :
  foldM (syncTag c release now) found (tag :: tags) w =
  foldM (syncTag c release now)
    (if recognisedTag c tag then found ∪ {[ tagName tag ]} else found) tags
    (snd (syncTag c release now found tag w)).
Proof.
  rewrite foldM_cons. destruct (recognisedTag c tag) eqn:E.
  - pose proof (syncTag_facts c release now found tag w E) as (Hfst & _).
    destruct (syncTag c release now found tag w) as [o w']. simpl in *. subst o. reflexivity.
  - rewrite (syncTag_skip _ _ _ _ _ _ E). reflexivity.
Qed.

Lemma syncTags_found c release now tags found w :
  fst (foldM (syncTag c release now) found tags w)
  = Returned (found ∪ recognisedNames c tags).
Proof.
  revert found w. induction tags as [|tag tags IH]; intros found w.
  - simpl. f_equal. set_solver.
  - rewrite syncTags_step, IH. simpl. f_equal. destruct (recognisedTag c tag); set_solver.
Qed.

(** A key that is no recognized tag keeps its record, or its absence. *)
Lemma syncTags_other c release now tags found w k :
  k ∉ recognisedNames c tags ->
  records (snd (foldM (syncTag c release now) found tags w)) !! k = records w !! k.
Proof.
  revert found w. induction tags as [|tag tags IH]; intros found w Hk; [reflexivity|].
  rewrite syncTags_step. simpl in Hk.
  destruct (recognisedTag c tag) eqn:E.
  - rewrite IH by set_solver.
    apply (syncTag_facts c release now found tag w E). set_solver.
  - rewrite IH by exact Hk. rewrite (syncTag_skip _ _ _ _ _ _ E). reflexivity.
Qed.

(** A record the refresh would not change stays through the loop. *)
Lemma syncTags_fixed c release now tags found w k r :
  records w !! k = Some r ->
  (forall n, expired c n r = true -> refreshed now r = r) ->
  records (snd (foldM (syncTag c release now) found tags w)) !! k = Some r.
Proof.
  revert found w. induction tags as [|tag tags IH]; intros found w Hk Hfix; [exact Hk|].
  rewrite syncTags_step. apply IH; [|exact Hfix].
  destruct (recognisedTag c tag) eqn:E.
  - destruct (syncTag_facts c release now found tag w E) as (_ & Hother & Hkey & _).
    destruct (decide (k = tagName tag)) as [->|Hne].
    + rewrite Hkey, Hk. destruct (expired c (ticks w) r) eqn:Ex; [|reflexivity].
      rewrite (Hfix _ Ex). reflexivity.
    + rewrite Hother by exact Hne. exact Hk.
  - rewrite (syncTag_skip _ _ _ _ _ _ E). exact Hk.
Qed.

(** A record present before the loop is present after it, as it was or
    refreshed. *)
Lemma syncTags_keeps c release now tags found w k r :
  records w !! k = Some r ->
  records (snd (foldM (syncTag c release now) found tags w)) !! k = Some r \/
  (k ∈ recognisedNames c tags /\
   records (snd (foldM (syncTag c release now) found tags w)) !! k
   = Some (refreshed now r)).
Proof.
  revert found w. induction tags as [|tag tags IH]; intros found w Hk; [left; exact Hk|].
  rewrite syncTags_step. simpl.
  destruct (recognisedTag c tag) eqn:E.
  - destruct (syncTag_facts c release now found tag w E) as (_ & Hother & Hkey & _).
    destruct (decide (k = tagName tag)) as [->|Hne].
    + rewrite Hk in Hkey. destruct (expired c (ticks w) r).
      * right. split; [set_solver|]. apply syncTags_fixed; [exact Hkey|reflexivity].
      * destruct (IH (found ∪ {[tagName tag]}) _ Hkey) as [H|[Hin H]];
          [left; exact H|right; split; [set_solver|exact H]].
    + rewrite <- Hother in Hk by exact Hne.
      destruct (IH (found ∪ {[tagName tag]}) _ Hk) as [H|[Hin H]];
        [left; exact H|right; split; [set_solver|exact H]].
  - rewrite (syncTag_skip _ _ _ _ _ _ E). apply IH. exact Hk.
Qed.

(** The loop only adds to the queue. *)
Lemma syncTags_queue c release now tags found w :
  exists q,
    trackerQueue (snd (foldM (syncTag c release now) found tags w))
    = (trackerQueue w ++ q)%list.
Proof.
  revert found w. induction tags as [|tag tags IH]; intros found w.
  - exists []. simpl. rewrite app_nil_r. reflexivity.
  - rewrite syncTags_step.
    destruct (IH (if recognisedTag c tag then found ∪ {[tagName tag]} else found)
                (snd (syncTag c release now found tag w))) as [q Hq].
    rewrite Hq. destruct (recognisedTag c tag) eqn:E.
    + destruct (syncTag_facts c release now found tag w E) as (_ & _ & _ & Hqueue).
      rewrite Hqueue, <- app_assoc. eexists. reflexivity.
    + rewrite (syncTag_skip _ _ _ _ _ _ E). simpl. eexists. reflexivity.
Qed.

Lemma Sync_not_stable c release w :
  cfgAs (Config release) ≠ releaseConfigModeStable c ->
  Sync c release w = (Returned tt, w).
Proof.
  intros H. unfold Sync. rewrite bool_decide_eq_true_2 by exact H. reflexivity.
Qed.

(** In stable mode: the loop, from the reading of the clock, then the
    removal of the records of this release that no recognized tag names. *)
Lemma Sync_stable c release w :
  cfgAs (Config release) = releaseConfigModeStable c ->
  Sync c release w =
  (Returned tt,
   set_records (removeOldTags (cfgName (Config release)) (recognisedTags c release))
     (snd (foldM (syncTag c release (clock c (ticks w))) ∅ (isTags (Target release))
             (set_ticks S w)))).
Proof.
  intros H. unfold Sync. rewrite bool_decide_eq_false_2 by (intros Hne; exact (Hne H)).
  unfold bind at 1. unfold timeNow. unfold bind.
  pose proof (syncTags_found c release (clock c (ticks w)) (isTags (Target release)) ∅
                (set_ticks S w)) as Hfound.
  destruct (foldM _ _ _ _) as [o w']. simpl in Hfound. subst o.
  unfold modify, recognisedTags. simpl. rewrite (left_id_L ∅ (∪)). reflexivity.
Qed.

Lemma removeOldTags_lookup (releaseName : string) (found : gset string)
    (rs : gmap string AuditRecord) (k : string) :
  removeOldTags releaseName found rs !! k =
  match rs !! k with
  | Some r => if decide (Release r ≠ releaseName ∨ k ∈ found) then Some r else None
  | None => None
  end.
Proof.
  unfold removeOldTags. destruct (rs !! k) as [r|] eqn:E.
  - destruct (decide (Release r ≠ releaseName ∨ k ∈ found)) as [H|H].
    + apply map_lookup_filter_Some. auto.
    + apply map_lookup_filter_None. right. intros r' Hr'. simpl. congruence.
  - apply map_lookup_filter_None. left. exact E.
Qed.

Lemma Sub_gtb (t u bound : Z) :
  GoTime.minDuration <= bound < GoTime.maxDuration ->
  (GoTime.Sub t u >? bound) = (t - u >? bound).
Proof.
  intros Hb. unfold GoTime.Sub.
  destruct (t - u <? GoTime.minDuration) eqn:E1;
    [|destruct (GoTime.maxDuration <? t - u) eqn:E2]; try reflexivity.
  - apply Z.ltb_lt in E1.
    rewrite !Z.gtb_ltb. destruct (Z.ltb_spec bound GoTime.minDuration),
      (Z.ltb_spec bound (t - u)); try reflexivity; lia.
  - apply Z.ltb_lt in E2.
    rewrite !Z.gtb_ltb. destruct (Z.ltb_spec bound GoTime.maxDuration),
      (Z.ltb_spec bound (t - u)); try reflexivity; lia.
Qed.

Lemma expired_elapsed c n r :
  expired c n r = (clock c n - At r >? 12 * GoTime.Hour).
Proof. unfold expired. apply Sub_gtb. vm_compute. split; [discriminate|reflexivity]. Qed.

(** C6 (amended): in stable mode [Sync(release)] deletes a record exactly
    when its stored release name is the name of [release] and its key is not
    among the recognized tags of the call; a record of another release is
    never deleted, and a record that is kept is unchanged unless its key is
    among the recognized tags of the call, in which case the cooldown
    refresh may have reset its time and cleared its failure, whatever
    release owns it. *)
Theorem Sync_garbage_collection c release w k r :
  cfgAs (Config release) = releaseConfigModeStable c ->
  records w !! k = Some r ->
  match records (snd (Sync c release w)) !! k with
  | None => Release r = cfgName (Config release) /\ k ∉ recognisedTags c release
  | Some r' =>
      (Release r ≠ cfgName (Config release) \/ k ∈ recognisedTags c release) /\
      (r' = r \/ (k ∈ recognisedTags c release /\ r' = refreshed (clock c (ticks w)) r))
  end.
Proof.
  intros Hstable Hk. rewrite (Sync_stable _ _ _ Hstable). simpl.
  rewrite removeOldTags_lookup.
  destruct (syncTags_keeps c release (clock c (ticks w)) (isTags (Target release)) ∅
              (set_ticks S w) k r Hk) as [H|[Hin H]]; rewrite H.
  - destruct (decide _) as [Hkeep|Hdel].
    + split; [exact Hkeep|left; reflexivity].
    + split.
      * destruct (decide (Release r = cfgName (Config release))); [assumption|].
        exfalso. apply Hdel. left. assumption.
      * intros Hin. apply Hdel. right. exact Hin.
  - simpl. destruct (decide _) as [Hkeep|Hdel].
    + split; [exact Hkeep|right; split; [exact Hin|reflexivity]].
    + exfalso. apply Hdel. right. exact Hin.
Qed.

(** *** The readings of the clock the loop makes *)

(** One tag reads the clock at most once, at the current tick. *)
Lemma syncTag_ticks c release now found tag w :
  (ticks w <= ticks (snd (syncTag c release now found tag w)) <= S (ticks w))%nat.
Proof.
  destruct (recognisedTag c tag) eqn:E.
  - rewrite (syncTag_recognised _ _ _ _ _ _ E). cbv zeta.
    destruct (records w !! tagName tag) as [ex|]; simpl; [|lia].
    destruct (expired c (ticks w) ex), (drifted c release (tagName tag) ex); simpl; lia.
  - rewrite (syncTag_skip _ _ _ _ _ _ E). simpl. lia.
Qed.

(** A record the refresh would not change at the readings of the loop stays
    through the loop. *)
Lemma syncTags_fixed_in c release now tags found w k r :
  records w !! k = Some r ->
  (forall n, (ticks w <= n < ticks w + length tags)%nat ->
             expired c n r = true -> refreshed now r = r) ->
  records (snd (foldM (syncTag c release now) found tags w)) !! k = Some r.
Proof.
  revert found w. induction tags as [|tag tags IH]; intros found w Hk Hfix; [exact Hk|].
  rewrite syncTags_step.
  pose proof (syncTag_ticks c release now found tag w) as Hticks.
  apply IH.
  - destruct (recognisedTag c tag) eqn:E.
    + destruct (syncTag_facts c release now found tag w E) as (_ & Hother & Hkey & _).
      destruct (decide (k = tagName tag)) as [->|Hne].
      * rewrite Hkey, Hk. destruct (expired c (ticks w) r) eqn:Ex; [|reflexivity].
        rewrite (Hfix (ticks w)); [reflexivity| |exact Ex]. simpl. lia.
      * rewrite Hother by exact Hne. exact Hk.
    + rewrite (syncTag_skip _ _ _ _ _ _ E). exact Hk.
  - intros n Hn. apply Hfix. simpl. lia.
Qed.

Lemma syncTags_refresh_in c release now tags found w k r :
  records w !! k = Some r ->
  (forall n, (ticks w <= n < ticks w + length tags)%nat -> expired c n r = true) ->
  k ∈ recognisedNames c tags ->
  records (snd (foldM (syncTag c release now) found tags w)) !! k
  = Some (refreshed now r).
Proof.
  revert found w. induction tags as [|tag tags IH]; intros found w Hk Hexp Hin.
  - simpl in Hin. set_solver.
  - rewrite syncTags_step. simpl in Hin.
    pose proof (syncTag_ticks c release now found tag w) as Hticks.
    assert (Hrest : forall n,
              (ticks (snd (syncTag c release now found tag w)) <= n
               < ticks (snd (syncTag c release now found tag w)) + length tags)%nat ->
              expired c n r = true)
      by (intros n Hn; apply Hexp; simpl; lia).
    destruct (recognisedTag c tag) eqn:E.
    + destruct (syncTag_facts c release now found tag w E) as (_ & Hother & Hkey & _).
      destruct (decide (k = tagName tag)) as [->|Hne].
      * apply syncTags_fixed; [|reflexivity].
        rewrite Hkey, Hk, Hexp by (simpl; lia). reflexivity.
      * apply IH; [|exact Hrest|set_solver].
        rewrite Hother by exact Hne. exact Hk.
    + apply IH; [|exact Hrest|exact Hin].
      rewrite (syncTag_skip _ _ _ _ _ _ E). exact Hk.
Qed.

Lemma syncTags_enqueues_in c release now tags found w k r :
  records w !! k = Some r ->
  (forall n, (ticks w <= n < ticks w + length tags)%nat ->
             expired c n r || drifted c release k r = true) ->
  k ∈ recognisedNames c tags ->
  exists q,
    trackerQueue (snd (foldM (syncTag c release now) found tags w))
    = (trackerQueue w ++ q)%list /\ k ∈ q.
Proof.
  revert found w. induction tags as [|tag tags IH]; intros found w Hk Hdue Hin.
  - simpl in Hin. set_solver.
  - rewrite syncTags_step. simpl in Hin.
    pose proof (syncTag_ticks c release now found tag w) as Hticks.
    assert (Hrest : forall n,
              (ticks (snd (syncTag c release now found tag w)) <= n
               < ticks (snd (syncTag c release now found tag w)) + length tags)%nat ->
              expired c n r || drifted c release k r = true)
      by (intros n Hn; apply Hdue; simpl; lia).
    destruct (recognisedTag c tag) eqn:E.
    + destruct (syncTag_facts c release now found tag w E) as (_ & Hother & _ & Hqueue).
      destruct (decide (k = tagName tag)) as [->|Hne].
      * destruct (syncTags_queue c release now tags (found ∪ {[tagName tag]})
                    (snd (syncTag c release now found tag w))) as [q Hq].
        rewrite Hq, Hqueue, Hk, Hdue, <- app_assoc by (simpl; lia).
        eexists. split; [reflexivity|]. set_solver.
      * destruct (IH (found ∪ {[tagName tag]}) (snd (syncTag c release now found tag w)))
          as (q & Hq & Hkq); [rewrite Hother by exact Hne; exact Hk|exact Hrest|set_solver|].
        rewrite Hq, Hqueue, <- app_assoc. eexists. split; [reflexivity|]. set_solver.
    + rewrite (syncTag_skip _ _ _ _ _ _ E) in Hrest |- *. simpl. apply IH; assumption.
Qed.

Lemma syncTags_not_enqueued_in c release now tags found w k r :
  records w !! k = Some r ->
  (forall n, (ticks w <= n < ticks w + length tags)%nat -> expired c n r = false) ->
  drifted c release k r = false ->
  exists q,
    trackerQueue (snd (foldM (syncTag c release now) found tags w))
    = (trackerQueue w ++ q)%list /\ k ∉ q.
Proof.
  revert found w. induction tags as [|tag tags IH]; intros found w Hk Hexp Hdrift.
  - exists []. simpl. rewrite app_nil_r. split; [reflexivity|set_solver].
  - rewrite syncTags_step.
    pose proof (syncTag_ticks c release now found tag w) as Hticks.
    assert (Hrest : forall n,
              (ticks (snd (syncTag c release now found tag w)) <= n
               < ticks (snd (syncTag c release now found tag w)) + length tags)%nat ->
              expired c n r = false)
      by (intros n Hn; apply Hexp; simpl; lia).
    assert (Hnow : expired c (ticks w) r = false) by (apply Hexp; simpl; lia).
    destruct (recognisedTag c tag) eqn:E.
    + destruct (syncTag_facts c release now found tag w E) as (_ & Hother & Hkey & Hqueue).
      destruct (IH (found ∪ {[tagName tag]}) (snd (syncTag c release now found tag w)))
        as (q & Hq & Hkq); [|exact Hrest|exact Hdrift|].
      { destruct (decide (k = tagName tag)) as [->|Hne].
        - rewrite Hkey, Hk, Hnow. reflexivity.
        - rewrite Hother by exact Hne. exact Hk. }
      rewrite Hq, Hqueue, <- app_assoc. eexists. split; [reflexivity|].
      destruct (decide (k = tagName tag)) as [->|Hne].
      * rewrite Hk, Hnow, Hdrift. simpl. exact Hkq.
      * destruct (records w !! tagName tag) as [ex|];
          [destruct (expired c (ticks w) ex || drifted c release (tagName tag) ex)|];
          set_solver.
    + rewrite (syncTag_skip _ _ _ _ _ _ E) in Hrest |- *. simpl. apply IH; assumption.
Qed.

Lemma syncTags_unchanged_in c release now tags found w :
  (forall k, k ∈ recognisedNames c tags -> is_Some (records w !! k)) ->
  (forall k r n, records w !! k = Some r ->
                 (ticks w <= n < ticks w + length tags)%nat -> expired c n r = false) ->
  forall k, records (snd (foldM (syncTag c release now) found tags w)) !! k = records w !! k.
Proof.
  revert found w. induction tags as [|tag tags IH]; intros found w Hall Hexp k; [reflexivity|].
  rewrite syncTags_step.
  pose proof (syncTag_ticks c release now found tag w) as Hticks.
  assert (Hstep : forall k, records (snd (syncTag c release now found tag w)) !! k
                            = records w !! k).
  { intros j. destruct (recognisedTag c tag) eqn:E.
    - destruct (syncTag_facts c release now found tag w E) as (_ & Hother & Hkey & _).
      destruct (decide (j = tagName tag)) as [->|Hne]; [|apply Hother; exact Hne].
      rewrite Hkey. destruct (Hall (tagName tag)) as [ex Hex].
      { simpl. rewrite E. set_solver. }
      rewrite Hex, (Hexp _ _ (ticks w) Hex) by (simpl; lia). reflexivity.
    - rewrite (syncTag_skip _ _ _ _ _ _ E). reflexivity. }
  rewrite IH; [apply Hstep| |].
  - intros j Hj. rewrite Hstep. apply Hall. simpl.
    destruct (recognisedTag c tag); set_solver.
  - intros j r n Hj Hn. rewrite Hstep in Hj. apply (Hexp _ _ n Hj). simpl. lia.
Qed.

(** C3: the reconciliation of a tag whose record has a failure returns nil
    and changes nothing: no call, no verification, no signing, no store
    write.  [Sync] of a stable release that recognizes the tag clears the
    failure and sets the time to the reading of the clock it took on entry
    exactly when more than 12 hours have elapsed since the record's time at
    the readings [Sync] makes in its loop ([exp]); otherwise the failure and
    the time stay as they are, also when the digest or the location has
    drifted.  The other fields of the record stay in both cases.  The tag is
    queued exactly when the cooldown has elapsed or there is a drift. *)
Theorem sticky_failure_lifecycle c tag w record f release (exp : bool) :
  records w !! tag = Some record ->
  Failure record = Some f ->
  cfgAs (Config release) = releaseConfigModeStable c ->
  tag ∈ recognisedTags c release ->
  (forall n, (ticks w < n <= ticks w + length (isTags (Target release)))%nat ->
             (clock c n - At record >? 12 * GoTime.Hour) = exp) ->
  syncAuditTag c tag w = (Returned None, w) /\
  (exists r',
     records (snd (Sync c release w)) !! tag = Some r' /\
     Failure r' = (if exp then None else Some f) /\
     At r' = (if exp then clock c (ticks w) else At record) /\
     Name r' = Name record /\ ID r' = ID record /\ Location r' = Location record /\
     Release r' = Release record /\
     ImageStreamNamespace r' = ImageStreamNamespace record /\
     ImageStreamName r' = ImageStreamName record) /\
  exists q,
    trackerQueue (snd (Sync c release w)) = (trackerQueue w ++ q)%list /\
    if exp || drifted c release tag record then tag ∈ q else tag ∉ q.
Proof.
  intros Hrec Hfail Hstable Hin Hclock.
  assert (Hexp : forall n,
            (ticks (set_ticks S w) <= n
             < ticks (set_ticks S w) + length (isTags (Target release)))%nat ->
            expired c n record = exp).
  { intros n Hn. rewrite expired_elapsed. apply Hclock. simpl in Hn. lia. }
  split; [exact (syncAuditTag_failed c tag w record f Hrec Hfail)|].
  rewrite (Sync_stable _ _ _ Hstable). simpl. rewrite removeOldTags_lookup.
  split.
  - destruct exp.
    + rewrite (syncTags_refresh_in c release _ _ ∅ (set_ticks S w) tag record Hrec Hexp Hin).
      rewrite decide_True by (right; exact Hin).
      eexists. split; [reflexivity|]. simpl. auto 10.
    + rewrite (syncTags_fixed_in c release _ _ ∅ (set_ticks S w) tag record Hrec)
        by (intros n Hn Hx; rewrite (Hexp n Hn) in Hx; discriminate).
      rewrite decide_True by (right; exact Hin).
      eexists. split; [reflexivity|]. auto 10.
  - destruct (exp || drifted c release tag record) eqn:Edue.
    + apply (syncTags_enqueues_in c release _ _ ∅ (set_ticks S w) tag record Hrec);
        [|exact Hin].
      intros n Hn. rewrite (Hexp n Hn). exact Edue.
    + apply orb_false_iff in Edue as [-> Hdrift].
      apply (syncTags_not_enqueued_in c release _ _ ∅ (set_ticks S w) tag record Hrec Hexp
               Hdrift).
Qed.

Lemma sticky_failure_lifecycle_witness :
  (syncAuditTag Examples.tickingController "t" Examples.failedWorld
   = (Returned None, Examples.failedWorld) /\
   (exists r',
      records (snd (Sync Examples.tickingController Examples.taggedRelease
                      Examples.failedWorld)) !! "t" = Some r' /\
      Failure r' = Some Examples.failure /\
      At r' = At Examples.failedDriftedRecord /\
      Name r' = Name Examples.failedDriftedRecord /\
      ID r' = ID Examples.failedDriftedRecord /\
      Location r' = Location Examples.failedDriftedRecord /\
      Release r' = Release Examples.failedDriftedRecord /\
      ImageStreamNamespace r' = ImageStreamNamespace Examples.failedDriftedRecord /\
      ImageStreamName r' = ImageStreamName Examples.failedDriftedRecord) /\
   exists q,
     trackerQueue (snd (Sync Examples.tickingController Examples.taggedRelease
                          Examples.failedWorld))
     = (trackerQueue Examples.failedWorld ++ q)%list /\ "t" ∈ q) /\
  (syncAuditTag Examples.tickingController "t" Examples.agedWorld
   = (Returned None, Examples.agedWorld) /\
   (exists r',
      records (snd (Sync Examples.tickingController Examples.taggedRelease
                      Examples.agedWorld)) !! "t" = Some r' /\
      Failure r' = None /\
      At r' = 20 * GoTime.Hour /\
      Name r' = Name Examples.failedDriftedRecord /\
      ID r' = ID Examples.failedDriftedRecord /\
      Location r' = Location Examples.failedDriftedRecord /\
      Release r' = Release Examples.failedDriftedRecord /\
      ImageStreamNamespace r' = ImageStreamNamespace Examples.failedDriftedRecord /\
      ImageStreamName r' = ImageStreamName Examples.failedDriftedRecord) /\
   exists q,
     trackerQueue (snd (Sync Examples.tickingController Examples.taggedRelease
                          Examples.agedWorld))
     = (trackerQueue Examples.agedWorld ++ q)%list /\ "t" ∈ q).
Proof.
  split.
  - apply (sticky_failure_lifecycle Examples.tickingController "t" Examples.failedWorld
             Examples.failedDriftedRecord Examples.failure Examples.taggedRelease false).
    + reflexivity.
    + reflexivity.
    + reflexivity.
    + apply (bool_decide_unpack _). vm_compute. exact I.
    + intros n Hn. simpl in Hn. assert (n = 1%nat) as -> by lia. reflexivity.
  - apply (sticky_failure_lifecycle Examples.tickingController "t" Examples.agedWorld
             Examples.failedDriftedRecord Examples.failure Examples.taggedRelease true).
    + reflexivity.
    + reflexivity.
    + reflexivity.
    + apply (bool_decide_unpack _). vm_compute. exact I.
    + intros n Hn. simpl in Hn. assert (n = 21%nat) as -> by lia. reflexivity.
Defined.

Lemma Sync_garbage_collection_witness :
  match records (snd (Sync Examples.clusterController Examples.plainRelease
                        Examples.staleWorld)) !! "old" with
  | None =>
      Release Examples.staleRecord = cfgName (Config Examples.plainRelease) /\
      "old" ∉ recognisedTags Examples.clusterController Examples.plainRelease
  | Some r' =>
      (Release Examples.staleRecord ≠ cfgName (Config Examples.plainRelease) \/
       "old" ∈ recognisedTags Examples.clusterController Examples.plainRelease) /\
      (r' = Examples.staleRecord \/
       ("old" ∈ recognisedTags Examples.clusterController Examples.plainRelease /\
        r' = refreshed (clock Examples.clusterController (ticks Examples.staleWorld))
               Examples.staleRecord))
  end.
Proof.
  apply (Sync_garbage_collection Examples.clusterController Examples.plainRelease
           Examples.staleWorld "old" Examples.staleRecord).
  - reflexivity.
  - reflexivity.
Defined.

(** C6 (as stated) fails: a record of release 4.11 stored under the key of
    a recognized tag of release 4.10 is changed by [Sync] of release 4.10:
    past the cooldown its time is reset and its failure cleared. *)
Lemma Sync_refreshes_record_of_other_release :
  Release Examples.foreignRecord ≠ cfgName (Config Examples.taggedRelease) /\
  records Examples.foreignWorld !! "t" = Some Examples.foreignRecord /\
  records (snd (Sync Examples.lateController Examples.taggedRelease Examples.foreignWorld))
    !! "t"
  = Some (refreshed Examples.thirteenHours Examples.foreignRecord) /\
  Failure Examples.foreignRecord = Some Examples.failure /\
  Failure (refreshed Examples.thirteenHours Examples.foreignRecord) = None.
Proof.
  split; [discriminate|].
  split; [reflexivity|].
  split; [vm_compute; reflexivity|].
  split; reflexivity.
Qed.

(** A record whose key [Sync] does not recognize, or any record when the
    release is not stable, keeps its failure: it is left as it is or, in
    stable mode, deleted. *)
Lemma Sync_unrecognised c release w k r :
  records w !! k = Some r ->
  cfgAs (Config release) ≠ releaseConfigModeStable c \/ k ∉ recognisedTags c release ->
  records (snd (Sync c release w)) !! k = Some r \/
  records (snd (Sync c release w)) !! k = None.
Proof.
  intros Hk Hcase.
  destruct (decide (cfgAs (Config release) = releaseConfigModeStable c)) as [Hs|Hs].
  - destruct Hcase as [Hns|Hnot]; [contradiction|].
    rewrite (Sync_stable _ _ _ Hs). simpl. rewrite removeOldTags_lookup.
    rewrite (syncTags_other c release _ _ ∅ (set_ticks S w) k Hnot). simpl. rewrite Hk.
    destruct (decide _); auto.
  - rewrite (Sync_not_stable _ _ _ Hs). left. exact Hk.
Qed.

(** ** Records are stored under their names *)

Lemma NewAuditTracker_named (w : World) : tracker_named (NewAuditTracker w).
Proof. intros k r Hk. simpl in Hk. rewrite lookup_empty in Hk. discriminate. Qed.

Lemma syncTags_named c release now tags found w :
  tracker_named w ->
  tracker_named (snd (foldM (syncTag c release now) found tags w)).
Proof.
  revert found w. induction tags as [|tag tags IH]; intros found w Hw; [exact Hw|].
  rewrite syncTags_step. apply IH.
  destruct (recognisedTag c tag) eqn:E.
  - destruct (syncTag_facts c release now found tag w E) as (_ & Hother & Hkey & _).
    intros k r Hk. destruct (decide (k = tagName tag)) as [->|Hne].
    + rewrite Hkey in Hk. injection Hk as <-.
      destruct (records w !! tagName tag) as [ex|] eqn:Eex; [|reflexivity].
      pose proof (Hw _ _ Eex). destruct (expired c (ticks w) ex); assumption.
    + rewrite Hother in Hk by exact Hne. exact (Hw _ _ Hk).
  - rewrite (syncTag_skip _ _ _ _ _ _ E). exact Hw.
Qed.

Lemma Sync_named c release w :
  tracker_named w -> tracker_named (snd (Sync c release w)).
Proof.
  intros Hw.
  destruct (decide (cfgAs (Config release) = releaseConfigModeStable c)) as [Hs|Hs].
  - rewrite (Sync_stable _ _ _ Hs). intros k r Hk. simpl in Hk.
    rewrite removeOldTags_lookup in Hk.
    destruct (records _ !! k) as [r'|] eqn:E; [|discriminate].
    destruct (decide _); [|discriminate]. injection Hk as <-.
    exact (syncTags_named c release _ _ _ (set_ticks S w) Hw _ _ E).
  - rewrite (Sync_not_stable _ _ _ Hs). exact Hw.
Qed.

Lemma syncAuditTag_named c tag w :
  tracker_named w -> tracker_named (snd (syncAuditTag c tag w)).
Proof.
  intros Hw.
  change (post (syncAuditTag c tag) w (fun _ w' => tracker_named w')).
  unfold_go. repeat wp_step.
  all: try exact Hw.
  all: intros key rec Hkey; simpl in Hkey;
    match type of Hkey with
    | <[ ?n := _ ]> _ !! _ = _ =>
        destruct (decide (key = n)) as [->|Hne];
        [rewrite lookup_insert_eq in Hkey; injection Hkey as <-; simpl; eapply Hw; eassumption
        |rewrite lookup_insert_ne in Hkey by congruence; exact (Hw _ _ Hkey)]
    end.
Qed.

Lemma run_named (steps : list Step) (w : World) :
  tracker_named w -> tracker_named (run steps w).
Proof.
  revert w. induction steps as [|s steps IH]; intros w Hw; [exact Hw|].
  simpl. apply IH. destruct s; simpl; auto using syncAuditTag_named, Sync_named.
Qed.

(** * Further properties of the code *)

(** ** The verification job and the admission count *)

Lemma verifyJobFrom_returns c base prefix release record :
  (exists job, verifyJobFrom c (base, prefix) release record = Returned job) <->
  jobContainers base <> [] /\ jobAnnotations base <> None.
Proof.
  unfold verifyJobFrom. split.
  - intros [job H]. destruct (jobContainers base); [discriminate|].
    destruct (jobAnnotations base); [|discriminate]. split; discriminate.
  - intros [Hc Ha]. destruct (jobContainers base); [congruence|].
    destruct (jobAnnotations base); [|congruence]. eexists. reflexivity.
Qed.

(** A job the create function builds carries the label the throttle
    selects on. *)
Lemma verifyJobFrom_selector c base prefix release record job :
  verifyJobFrom c (base, prefix) release record = Returned job ->
  auditVerifyJobSelector c job = true.
Proof.
  unfold verifyJobFrom. intros H.
  destruct (jobContainers base) as [|c0 cs]; [discriminate|].
  destruct (jobAnnotations base) as [ann|]; [|discriminate].
  injection H as <-. unfold auditVerifyJobSelector. simpl.
  apply bool_decide_eq_true. apply lookup_insert_eq.
Qed.

(** X23: A job the create function of ensureAuditVerifyJob builds matches
    auditVerifyJobSelector (label purpose=audit), has the purpose annotation
    'audit', has 'verify' as the name of its first container with the command
    /bin/bash -c <prefix + script> '' <record location>, has as many
    containers as the base job, and keeps the name, completion time and
    active count of the base job. *)
Theorem verifyJobFrom_job c base prefix release record job :
  verifyJobFrom c (base, prefix) release record = Returned job ->
  auditVerifyJobSelector c job = true /\
  (exists annotations,
     jobAnnotations job = Some annotations /\
     annotations !! releaseAnnotationJobPurpose c = Some "audit") /\
  (exists rest,
     jobContainers job =
       {| cName := "verify";
          cCommand := ["/bin/bash"; "-c"; prefix +:+ verifyScript; ""; Location record] |}
       :: rest /\
     (length (jobContainers job) = length (jobContainers base))%nat) /\
  jobName job = jobName base /\
  jobCompletionTime job = jobCompletionTime base /\
  jobActive job = jobActive base.
Proof.
  unfold verifyJobFrom. intros H.
  destruct (jobContainers base) as [|c0 cs] eqn:Ec; [discriminate|].
  destruct (jobAnnotations base) as [ann|]; [|discriminate].
  injection H as <-. unfold auditVerifyJobSelector. simpl.
  split; [|split; [|split; [|auto]]].
  - apply bool_decide_eq_true. apply lookup_insert_eq.
  - eexists. split; [reflexivity|]. apply lookup_insert_eq.
  - eexists. split; reflexivity.
Qed.

Lemma countUnfinished_acc (n : Z) (l : list Job) :
  countUnfinished n l
  = n + Z.of_nat (length (filter (fun job => jobCompletionTime job = None) l)).
Proof.
  revert n. induction l as [|job l IH]; intros n; simpl; [lia|].
  rewrite filter_cons. destruct (jobCompletionTime job) eqn:E.
  - rewrite IH. rewrite decide_False by congruence. reflexivity.
  - rewrite IH. rewrite decide_True by reflexivity. simpl length. lia.
Qed.

Lemma countUnfinished_Permutation (l1 l2 : list Job) :
  l1 ≡ₚ l2 -> countUnfinished 0 l1 = countUnfinished 0 l2.
Proof.
  intros H. rewrite !countUnfinished_acc. rewrite H. reflexivity.
Qed.

Lemma listAuditJobs_insert c (js : gmap string Job) (name : string) (job : Job) :
  js !! name = None ->
  listAuditJobs c (<[ name := job ]> js)
  ≡ₚ (if auditVerifyJobSelector c job then [job] else []) ++ listAuditJobs c js.
Proof.
  intros Hnone. unfold listAuditJobs.
  rewrite (map_to_list_insert js name job Hnone). rewrite fmap_cons, filter_cons. simpl.
  destruct (auditVerifyJobSelector c job).
  - rewrite decide_True by reflexivity. reflexivity.
  - rewrite decide_False by discriminate. reflexivity.
Qed.

(** The count of the throttle after a job is added under a free name. *)
Lemma unfinished_after_insert c w name job :
  jobs w !! name = None ->
  unfinishedAuditJobs c (set_jobs (insert name job) w) =
  unfinishedAuditJobs c w +
  (if auditVerifyJobSelector c job
   then match jobCompletionTime job with Some _ => 0 | None => 1 end
   else 0).
Proof.
  intros Hnone. unfold unfinishedAuditJobs. simpl.
  rewrite (countUnfinished_Permutation _ _ (listAuditJobs_insert c _ _ job Hnone)).
  rewrite !countUnfinished_acc.
  destruct (auditVerifyJobSelector c job); simpl; [|lia].
  rewrite filter_cons. destruct (jobCompletionTime job) eqn:E.
  - rewrite decide_False by congruence. lia.
  - rewrite decide_True by reflexivity. simpl length. lia.
Qed.

(** X24: The count of countAuditVerifyJobs does not depend on the order of the
    listing: adding a job under a free name raises it by one exactly when the
    job carries the audit label and has no completion time, and leaves it
    unchanged otherwise. *)
Theorem unfinishedAuditJobs_insert c w name job :
  jobs w !! name = None ->
  unfinishedAuditJobs c (set_jobs (insert name job) w) =
  unfinishedAuditJobs c w +
  (if auditVerifyJobSelector c job
   then match jobCompletionTime job with Some _ => 0 | None => 1 end
   else 0).
Proof. exact (unfinished_after_insert c w name job). Qed.

Lemma unfinishedAuditJobs_nonneg c w : 0 <= unfinishedAuditJobs c w.
Proof. unfold unfinishedAuditJobs. rewrite countUnfinished_acc. lia. Qed.

Lemma gtb_false_le (a b : Z) : (a >? b) = false -> a <= b.
Proof. rewrite Z.gtb_ltb. intros H. apply Z.ltb_ge in H. exact H. Qed.

(** The jobs after a reconciliation: as before, or with the job of the
    record's digest created after the admission check let it through. *)
Lemma syncAuditTag_jobs c tag w :
  post (syncAuditTag c tag) w (fun _ w' =>
    jobs w' = jobs w \/
    (jobListError c = None /\ unfinishedAuditJobs c w <= 2 /\
     exists record release job,
       records w !! tag = Some record /\
       jobs w !! auditVerifyJobName (ID record) = None /\
       verifyJobCreateFn c (auditVerifyJobName (ID record)) release record = Returned job /\
       jobs w' = <[ auditVerifyJobName (ID record) := job ]> (jobs w))).
Proof.
  unfold_go. repeat wp_step.
  all: try (left; reflexivity).
  all: right; split; [first [assumption|reflexivity]|]; split;
    [apply gtb_false_le; unfold unfinishedAuditJobs; assumption|]; eauto 10.
Qed.

(** X21: One reconciliation never takes the number of unfinished audit-
    labelled jobs above the larger of its previous value and 3: the bound the
    admission test 'count > 2' enforces on job creation is 3, not 2. *)
Theorem admission_bound c tag w :
  unfinishedAuditJobs c (snd (syncAuditTag c tag w)) <= Z.max (unfinishedAuditJobs c w) 3.
Proof.
  pose proof (syncAuditTag_jobs c tag w) as H. unfold post in H.
  destruct H as [H|(_ & Hcount & record & release & job & _ & Hnone & Hcreate & H)].
  - unfold unfinishedAuditJobs in *. rewrite H. lia.
  - pose proof (unfinished_after_insert c w _ job Hnone) as Hins.
    unfold unfinishedAuditJobs in *. simpl in Hins. rewrite H, Hins.
    destruct (auditVerifyJobSelector c job), (jobCompletionTime job); lia.
Qed.

(** X22: In cluster-job mode, when admission is granted, the digest has no job
    yet and the creation succeeds with a job without completion time, the job
    is stored under the name derived from the digest and the throttle's count
    of unfinished audit jobs is exactly one higher afterwards (the created job
    carries the label the throttle selects on). *)
Theorem admission_raises_count c tag w record release job :
  reachesBackend c w tag record release ->
  clusterJobMode c release ->
  ~ throttled c w ->
  jobs w !! auditVerifyJobName (ID record) = None ->
  verifyJobCreateFn c (auditVerifyJobName (ID record)) release record = Returned job ->
  jobCreateError c job = None ->
  jobCompletionTime job = None ->
  jobs (snd (syncAuditTag c tag w)) = <[ auditVerifyJobName (ID record) := job ]> (jobs w) /\
  unfinishedAuditJobs c (snd (syncAuditTag c tag w)) = unfinishedAuditJobs c w + 1.
Proof.
  intros Hreach Hmode Hadm Hnone Hcreate Hok Hunfinished.
  assert (Hsel : auditVerifyJobSelector c job = true).
  { unfold verifyJobCreateFn in Hcreate.
    destruct (newReleaseJobBase c _ _ _) as [base prefix].
    apply (verifyJobFrom_selector c base prefix release record job Hcreate). }
  backend_tests Hreach Hmode.
  apply admitted_tests in Hadm. destruct Hadm as [Herr Hcount].
  unfold unfinishedAuditJobs in Hcount.
  assert (Hjobs : post (syncAuditTag c tag) w (fun _ w' =>
            jobs w' = <[ auditVerifyJobName (ID record) := job ]> (jobs w))).
  { unfold_go. repeat wp_step. all: reflexivity. }
  unfold post in Hjobs. split; [exact Hjobs|].
  pose proof (unfinished_after_insert c w _ job Hnone) as Hins.
  unfold unfinishedAuditJobs in *. simpl in Hins.
  rewrite Hjobs, Hins, Hsel, Hunfinished. reflexivity.
Qed.

(** ** syncAuditTag: what each path leaves *)

Lemma new_events_refl (w : World) : new_events w w = [].
Proof. unfold new_events. apply drop_all. Qed.

Ltac events :=
  unfold new_events; simpl_world; rewrite <- ?app_assoc; simpl app;
  first [apply drop_app_length | apply drop_all].

Ltac leaf := repeat split; try reflexivity; try events; auto.

(** X10: For a tracked, non-failed record with a digest, when
    loadReleaseForSync answers an error or no release, syncAuditTag returns
    that error (nil when there is none) after the load alone: HasSignature is
    not queried and nothing else changes. *)
Theorem syncAuditTag_load_fails c tag w record release err :
  records w !! tag = Some record ->
  Failure record = None ->
  ID record <> "" ->
  loadReleaseForSync c (ImageStreamNamespace record) (ImageStreamName record)
    = Returned (release, err) ->
  err <> None \/ release = None ->
  syncAuditTag c tag w =
    (Returned err,
     set_trace (fun t => (t ++ [EvLoadRelease (ImageStreamNamespace record)
                                  (ImageStreamName record)])%list) w).
Proof.
  intros Hrec Hfail Hid Hload Hcase. apply len_nonzero in Hid.
  unfold syncAuditTag, Get, loadRelease, emit, bind, gets, modify, ret.
  rewrite Hrec, Hfail, Hid, Hload. simpl.
  destruct err; [reflexivity|]. destruct Hcase as [H | ->]; [congruence|reflexivity].
Qed.

(** X11: When neither the controller's pinned audit image nor the release's
    OverrideCLIImage is set, the reconciliation returns nil after the release
    load and the HasSignature query: no verification, no signing, no failure
    recorded, no requeue. *)
Theorem syncAuditTag_no_image c tag w record release :
  reachesBackend c w tag record release ->
  auditImage c release = "" ->
  syncAuditTag c tag w =
    (Returned None,
     set_trace (fun t => (t ++ [EvLoadRelease (ImageStreamNamespace record)
                                  (ImageStreamName record);
                                EvHasSignature (ID record)])%list) w).
Proof.
  intros Hreach Himg. apply reachesBackend_tests in Hreach.
  destruct Hreach as (Hrec & Hfail & Hid & Hload & Hsig).
  assert (Hlen : (len (auditImage c release) =? 0) = true) by (rewrite Himg; reflexivity).
  unfold auditImage in Hlen.
  unfold syncAuditTag, Get, loadRelease, HasSignature, emit, bind, gets, modify, ret.
  rewrite Hrec, Hfail, Hid, Hload. simpl. rewrite Hsig, Hlen.
  unfold set_trace. simpl. rewrite <- app_assoc. reflexivity.
Qed.

(** X12: In local mode, when the verify command, Sign and PutSignature all
    succeed, the reconciliation returns nil having called, in this order, the
    release load, HasSignature, the verify command on the location,
    Sign(digest, location) once and PutSignature(digest, signature) once; the
    store then holds the digest and the records, jobs and queue are unchanged. *)
Theorem syncAuditTag_local_signs c tag w record release out Sign sig :
  reachesBackend c w tag record release ->
  auditImage c release = "local" ->
  execVerify c (Location record) = (out, None) ->
  signer c = Some Sign ->
  Sign (ID record) (Location record) = (sig, None) ->
  putSignatureError c (ID record) sig = None ->
  let w' := snd (syncAuditTag c tag w) in
  fst (syncAuditTag c tag w) = Returned None /\
  new_events w w' = [EvLoadRelease (ImageStreamNamespace record) (ImageStreamName record);
                     EvHasSignature (ID record); EvExecVerify (Location record);
                     EvSign (ID record) (Location record);
                     EvPutSignature (ID record) sig] /\
  signatures w' = signatures w ∪ {[ ID record ]} /\
  records w' = records w /\ jobs w' = jobs w /\ auditQueue w' = auditQueue w.
Proof.
  intros Hreach Himg Hexec Hsigner Hsign Hput.
  apply reachesBackend_tests in Hreach.
  destruct Hreach as (Hrec & Hfail & Hid & Hload & Hsig).
  assert (Hlen : (len (auditImage c release) =? 0) = false) by (rewrite Himg; reflexivity).
  assert (Hlocal : bool_decide (auditImage c release = "local") = true)
    by (apply bool_decide_eq_true; exact Himg).
  unfold auditImage in Hlen, Hlocal.
  change (post (syncAuditTag c tag) w (fun o w' =>
    o = Returned None /\
    new_events w w' = [EvLoadRelease (ImageStreamNamespace record) (ImageStreamName record);
                       EvHasSignature (ID record); EvExecVerify (Location record);
                       EvSign (ID record) (Location record);
                       EvPutSignature (ID record) sig] /\
    signatures w' = signatures w ∪ {[ ID record ]} /\
    records w' = records w /\ jobs w' = jobs w /\ auditQueue w' = auditQueue w)).
  unfold_go. repeat wp_step. leaf.
Qed.

(** X13: In local mode, when the verify command fails, the reconciliation
    returns nil and records a failure: afterwards the record's failure is
    {VerificationFailed, 'Unable to verify release:' + newline + the trimmed
    command output} and its time the reading of the clock, its other fields
    and the other records are as before; Sign and PutSignature are not
    called and the store is unchanged. *)
Theorem syncAuditTag_local_fails c tag w record release out err :
  tracker_named w ->
  reachesBackend c w tag record release ->
  auditImage c release = "local" ->
  execVerify c (Location record) = (out, Some err) ->
  let w' := snd (syncAuditTag c tag w) in
  fst (syncAuditTag c tag w) = Returned None /\
  new_events w w' = [EvLoadRelease (ImageStreamNamespace record) (ImageStreamName record);
                     EvHasSignature (ID record); EvExecVerify (Location record)] /\
  (exists r',
     records w' !! tag = Some r' /\
     Failure r' = Some {| Reason := "VerificationFailed";
                          Message := "Unable to verify release:" +:+ newline +:+
                                     TrimSpace c out |} /\
     At r' = clock c (ticks w) /\
     Name r' = Name record /\ ID r' = ID record /\ Location r' = Location record /\
     Release r' = Release record /\
     ImageStreamNamespace r' = ImageStreamNamespace record /\
     ImageStreamName r' = ImageStreamName record) /\
  (forall k, k ≠ tag -> records w' !! k = records w !! k) /\
  signatures w' = signatures w /\ jobs w' = jobs w /\ auditQueue w' = auditQueue w.
Proof.
  intros Hnamed Hreach Himg Hexec.
  apply reachesBackend_tests in Hreach.
  destruct Hreach as (Hrec & Hfail & Hid & Hload & Hsig).
  pose proof (Hnamed _ _ Hrec) as Hname.
  assert (Hlen : (len (auditImage c release) =? 0) = false) by (rewrite Himg; reflexivity).
  assert (Hlocal : bool_decide (auditImage c release = "local") = true)
    by (apply bool_decide_eq_true; exact Himg).
  unfold auditImage in Hlen, Hlocal.
  assert (Hrec' : records w !! Name record = Some record) by (rewrite Hname; exact Hrec).
  change (post (syncAuditTag c tag) w (fun o w' =>
    o = Returned None /\
    new_events w w' = [EvLoadRelease (ImageStreamNamespace record) (ImageStreamName record);
                       EvHasSignature (ID record); EvExecVerify (Location record)] /\
    (exists r',
       records w' !! tag = Some r' /\
       Failure r' = Some {| Reason := "VerificationFailed";
                            Message := "Unable to verify release:" +:+ newline +:+
                                       TrimSpace c out |} /\
       At r' = clock c (ticks w) /\
       Name r' = Name record /\ ID r' = ID record /\ Location r' = Location record /\
       Release r' = Release record /\
       ImageStreamNamespace r' = ImageStreamNamespace record /\
       ImageStreamName r' = ImageStreamName record) /\
    (forall k, k ≠ tag -> records w' !! k = records w !! k) /\
    signatures w' = signatures w /\ jobs w' = jobs w /\ auditQueue w' = auditQueue w)).
  unfold_go. repeat wp_step. rewrite Hname.
  split; [reflexivity|]. split; [events|].
  split; [eexists; rewrite lookup_insert_eq; split; [reflexivity|]; simpl; auto 10|].
  split; [intros k Hk; apply lookup_insert_ne; congruence|]. auto.
Qed.

(** X17: In cluster-job mode with admission granted, when the job of the
    digest already exists and jobIsComplete reports it not complete, the
    reconciliation creates nothing, requeues the tag after 10 seconds, records
    no failure and returns nil. *)
Theorem syncAuditTag_job_running c tag w record release job success :
  reachesBackend c w tag record release ->
  clusterJobMode c release ->
  ~ throttled c w ->
  jobs w !! auditVerifyJobName (ID record) = Some job ->
  jobIsComplete c job = (success, false) ->
  let w' := snd (syncAuditTag c tag w) in
  fst (syncAuditTag c tag w) = Returned None /\
  new_events w w' = [EvLoadRelease (ImageStreamNamespace record) (ImageStreamName record);
                     EvHasSignature (ID record); EvListJobs;
                     EvGetJob (auditVerifyJobName (ID record))] /\
  auditQueue w' = (auditQueue w ++ [(tag, 10 * GoTime.Second)])%list /\
  records w' = records w /\ jobs w' = jobs w /\ signatures w' = signatures w.
Proof.
  intros Hreach Hmode Hadm Hjob Hcomplete.
  backend_tests Hreach Hmode.
  apply admitted_tests in Hadm. destruct Hadm as [Herr Hcount].
  unfold unfinishedAuditJobs in Hcount.
  change (post (syncAuditTag c tag) w (fun o w' =>
    o = Returned None /\
    new_events w w' = [EvLoadRelease (ImageStreamNamespace record) (ImageStreamName record);
                       EvHasSignature (ID record); EvListJobs;
                       EvGetJob (auditVerifyJobName (ID record))] /\
    auditQueue w' = (auditQueue w ++ [(tag, 10 * GoTime.Second)])%list /\
    records w' = records w /\ jobs w' = jobs w /\ signatures w' = signatures w)).
  unfold_go. repeat wp_step. leaf.
Qed.

(** X18: In cluster-job mode, when the existing job is complete but not
    successful and its status reports zero active pods, no pod lookup is made
    and a failure is recorded: afterwards the record's failure is
    {VerificationFailed, 'Unable to verify release for unknown reason'} and
    its time the reading of the clock, its other fields and the other
    records are as before; the reconciliation returns nil without requeue. *)
Theorem syncAuditTag_job_failed_no_pods c tag w record release job :
  tracker_named w ->
  reachesBackend c w tag record release ->
  clusterJobMode c release ->
  ~ throttled c w ->
  jobs w !! auditVerifyJobName (ID record) = Some job ->
  jobIsComplete c job = (false, true) ->
  jobActive job = 0 ->
  let w' := snd (syncAuditTag c tag w) in
  fst (syncAuditTag c tag w) = Returned None /\
  new_events w w' = [EvLoadRelease (ImageStreamNamespace record) (ImageStreamName record);
                     EvHasSignature (ID record); EvListJobs;
                     EvGetJob (auditVerifyJobName (ID record))] /\
  (exists r',
     records w' !! tag = Some r' /\
     Failure r' = Some {| Reason := "VerificationFailed";
                          Message := "Unable to verify release for unknown reason" |} /\
     At r' = clock c (ticks w) /\
     Name r' = Name record /\ ID r' = ID record /\ Location r' = Location record /\
     Release r' = Release record /\
     ImageStreamNamespace r' = ImageStreamNamespace record /\
     ImageStreamName r' = ImageStreamName record) /\
  (forall k, k ≠ tag -> records w' !! k = records w !! k) /\
  auditQueue w' = auditQueue w /\ jobs w' = jobs w /\ signatures w' = signatures w.
Proof.
  intros Hnamed Hreach Hmode Hadm Hjob Hcomplete Hactive.
  backend_tests Hreach Hmode.
  pose proof (Hnamed _ _ Hrec) as Hname.
  assert (Hrec' : records w !! Name record = Some record) by (rewrite Hname; exact Hrec).
  assert (Hactive' : (jobActive job =? 0) = true) by (rewrite Hactive; reflexivity).
  apply admitted_tests in Hadm. destruct Hadm as [Herr Hcount].
  unfold unfinishedAuditJobs in Hcount.
  change (post (syncAuditTag c tag) w (fun o w' =>
    o = Returned None /\
    new_events w w' = [EvLoadRelease (ImageStreamNamespace record) (ImageStreamName record);
                       EvHasSignature (ID record); EvListJobs;
                       EvGetJob (auditVerifyJobName (ID record))] /\
    (exists r',
       records w' !! tag = Some r' /\
       Failure r' = Some {| Reason := "VerificationFailed";
                            Message := "Unable to verify release for unknown reason" |} /\
       At r' = clock c (ticks w) /\
       Name r' = Name record /\ ID r' = ID record /\ Location r' = Location record /\
       Release r' = Release record /\
       ImageStreamNamespace r' = ImageStreamNamespace record /\
       ImageStreamName r' = ImageStreamName record) /\
    (forall k, k ≠ tag -> records w' !! k = records w !! k) /\
    auditQueue w' = auditQueue w /\ jobs w' = jobs w /\ signatures w' = signatures w)).
  unfold_go. repeat wp_step. rewrite Hname.
  split; [reflexivity|]. split; [events|].
  split; [eexists; rewrite lookup_insert_eq; split; [reflexivity|]; simpl; auto 10|].
  split; [intros k Hk; apply lookup_insert_ne; congruence|]. auto.
Qed.

(** X19: In cluster-job mode with admission granted and no job for the digest,
    when the job API refuses the creation, syncAuditTag returns the error
    'unable to verify release before signing: <error>'; no job exists
    afterwards, no failure is recorded and nothing is requeued. *)
Theorem syncAuditTag_job_create_fails c tag w record release job err :
  reachesBackend c w tag record release ->
  clusterJobMode c release ->
  ~ throttled c w ->
  jobs w !! auditVerifyJobName (ID record) = None ->
  verifyJobCreateFn c (auditVerifyJobName (ID record)) release record = Returned job ->
  jobCreateError c job = Some err ->
  let w' := snd (syncAuditTag c tag w) in
  fst (syncAuditTag c tag w)
  = Returned (Some ("unable to verify release before signing: " +:+ err)) /\
  new_events w w' = [EvLoadRelease (ImageStreamNamespace record) (ImageStreamName record);
                     EvHasSignature (ID record); EvListJobs;
                     EvGetJob (auditVerifyJobName (ID record)); EvCreateJob job] /\
  records w' = records w /\ auditQueue w' = auditQueue w /\ jobs w' = jobs w /\
  signatures w' = signatures w.
Proof.
  intros Hreach Hmode Hadm Hnone Hcreate Herror.
  backend_tests Hreach Hmode.
  apply admitted_tests in Hadm. destruct Hadm as [Herr Hcount].
  unfold unfinishedAuditJobs in Hcount.
  change (post (syncAuditTag c tag) w (fun o w' =>
    o = Returned (Some ("unable to verify release before signing: " +:+ err)) /\
    new_events w w' = [EvLoadRelease (ImageStreamNamespace record) (ImageStreamName record);
                       EvHasSignature (ID record); EvListJobs;
                       EvGetJob (auditVerifyJobName (ID record)); EvCreateJob job] /\
    records w' = records w /\ auditQueue w' = auditQueue w /\ jobs w' = jobs w /\
    signatures w' = signatures w)).
  unfold_go. repeat wp_step. leaf.
Qed.

(** X20: When the function that builds the verification job panics (a job base
    without containers or with a nil annotation map), the panic goes through
    syncAuditTag with its value; no job is created and no record changes. *)
Theorem syncAuditTag_job_build_panics c tag w record release v :
  reachesBackend c w tag record release ->
  clusterJobMode c release ->
  ~ throttled c w ->
  jobs w !! auditVerifyJobName (ID record) = None ->
  verifyJobCreateFn c (auditVerifyJobName (ID record)) release record = Panicked v ->
  fst (syncAuditTag c tag w) = Panicked v /\
  jobs (snd (syncAuditTag c tag w)) = jobs w /\
  records (snd (syncAuditTag c tag w)) = records w.
Proof.
  intros Hreach Hmode Hadm Hnone Hcreate.
  backend_tests Hreach Hmode.
  apply admitted_tests in Hadm. destruct Hadm as [Herr Hcount].
  unfold unfinishedAuditJobs in Hcount.
  change (post (syncAuditTag c tag) w (fun o w' =>
    o = Panicked v /\ jobs w' = jobs w /\ records w' = records w)).
  unfold_go. repeat wp_step. leaf.
Qed.

(** *** What no reconciliation does *)

(** X14: With no signer configured (c.signer == nil), no reconciliation ever
    calls Sign or PutSignature and the signature store is never changed. *)
Theorem syncAuditTag_without_signer c tag w :
  signer c = None ->
  Forall (fun e => isSigning e = false) (new_events w (snd (syncAuditTag c tag w))) /\
  signatures (snd (syncAuditTag c tag w)) = signatures w.
Proof.
  intros Hsigner.
  assert (Hpost : post (syncAuditTag c tag) w (fun _ w' =>
    (exists evs, trace w' = (trace w ++ evs)%list /\
                 Forall (fun e => isSigning e = false) evs) /\
    signatures w' = signatures w)).
  { unfold_go. repeat wp_step.
    all: split; [trace_evs; repeat constructor|reflexivity]. }
  unfold post in Hpost. destruct Hpost as [(evs & Ht & Hevs) Hs].
  rewrite (new_events_app _ _ _ Ht). auto.
Qed.

(** X15: A reconciliation changes the signature store only by adding the
    digest of the reconciled tag's record, only when that digest was not yet
    in the store and both Sign and PutSignature succeeded, and in that case it
    returns nil. *)
Theorem syncAuditTag_store_gains c tag w :
  let w' := snd (syncAuditTag c tag w) in
  signatures w' = signatures w \/
  (fst (syncAuditTag c tag w) = Returned None /\
   exists record Sign sig,
     records w !! tag = Some record /\
     (ID record ∉ signatures w) /\
     signer c = Some Sign /\
     Sign (ID record) (Location record) = (sig, None) /\
     putSignatureError c (ID record) sig = None /\
     signatures w' = signatures w ∪ {[ ID record ]}).
Proof.
  change (post (syncAuditTag c tag) w (fun o w' =>
    signatures w' = signatures w \/
    (o = Returned None /\
     exists record Sign sig,
       records w !! tag = Some record /\
       (ID record ∉ signatures w) /\
       signer c = Some Sign /\
       Sign (ID record) (Location record) = (sig, None) /\
       putSignatureError c (ID record) sig = None /\
       signatures w' = signatures w ∪ {[ ID record ]}))).
  unfold_go. repeat wp_step.
  all: try (left; reflexivity).
  all: right; split; [reflexivity|];
    repeat match goal with
           | H : bool_decide (_ ∈ _) = false |- _ => apply bool_decide_eq_false in H
           end;
    eauto 12.
Qed.

(** X9: Whenever syncAuditTag returns an error or panics (release load, job
    ensure, Sign or PutSignature failed), it has recorded nothing in the
    tracker: the records are unchanged, nothing was requeued and the clock was
    not read; failures are recorded only on paths that return nil. *)
Theorem syncAuditTag_error_not_recorded c tag w :
  fst (syncAuditTag c tag w) <> Returned None ->
  records (snd (syncAuditTag c tag w)) = records w /\
  auditQueue (snd (syncAuditTag c tag w)) = auditQueue w /\
  ticks (snd (syncAuditTag c tag w)) = ticks w.
Proof.
  assert (Hpost : post (syncAuditTag c tag) w (fun o w' =>
    o <> Returned None ->
    records w' = records w /\ auditQueue w' = auditQueue w /\ ticks w' = ticks w)).
  { unfold_go. repeat wp_step. all: intros Hne; try congruence; auto. }
  exact Hpost.
Qed.

(** X16: A reconciliation requeues at most once, always the reconciled tag
    itself with a delay of exactly 10 seconds, and a reconciliation that
    requeues returns nil and leaves the records and the store unchanged (a
    requeue never comes with a recorded failure). *)
Theorem syncAuditTag_requeue c tag w :
  let w' := snd (syncAuditTag c tag w) in
  auditQueue w' = auditQueue w \/
  (auditQueue w' = (auditQueue w ++ [(tag, 10 * GoTime.Second)])%list /\
   fst (syncAuditTag c tag w) = Returned None /\
   records w' = records w /\ signatures w' = signatures w).
Proof.
  change (post (syncAuditTag c tag) w (fun o w' =>
    auditQueue w' = auditQueue w \/
    (auditQueue w' = (auditQueue w ++ [(tag, 10 * GoTime.Second)])%list /\
     o = Returned None /\ records w' = records w /\ signatures w' = signatures w))).
  unfold_go. repeat wp_step.
  all: try (left; reflexivity).
  all: right; auto.
Qed.

(** X8: When every record is stored under its own name, the reconciliation of
    a tag changes no record of another tag, creates and deletes no record,
    changes of the tag's own record at most the time and the failure (name,
    digest, location, owner and source stream stay), does not touch the
    tracker's queue, and is a complete no-op for an untracked tag. *)
Theorem syncAuditTag_frame c tag w :
  tracker_named w ->
  let w' := snd (syncAuditTag c tag w) in
  (forall k, k ≠ tag -> records w' !! k = records w !! k) /\
  (match records w !! tag with
   | Some r =>
       exists r', records w' !! tag = Some r' /\
         Name r' = Name r /\ ID r' = ID r /\ Location r' = Location r /\
         Release r' = Release r /\
         ImageStreamNamespace r' = ImageStreamNamespace r /\
         ImageStreamName r' = ImageStreamName r
   | None => w' = w
   end) /\
  trackerQueue w' = trackerQueue w.
Proof.
  intros Hnamed.
  destruct (records w !! tag) as [record|] eqn:Hrec.
  - pose proof (Hnamed _ _ Hrec) as Hname.
    assert (Hrec' : records w !! Name record = Some record) by (rewrite Hname; exact Hrec).
    change (post (syncAuditTag c tag) w (fun _ w' =>
      (forall k, k ≠ tag -> records w' !! k = records w !! k) /\
      (exists r', records w' !! tag = Some r' /\
        Name r' = Name record /\ ID r' = ID record /\ Location r' = Location record /\
        Release r' = Release record /\
        ImageStreamNamespace r' = ImageStreamNamespace record /\
        ImageStreamName r' = ImageStreamName record) /\
      trackerQueue w' = trackerQueue w)).
    unfold_go. repeat wp_step.
    all: rewrite ?Hname.
    all: split; [intros k Hk; rewrite ?lookup_insert_ne by congruence; reflexivity|].
    all: split; [|reflexivity].
    all: rewrite ?lookup_insert_eq; eexists; split;
      [first [reflexivity | eassumption]|]; simpl; auto 10.
  - unfold syncAuditTag, Get, bind, gets, ret. rewrite Hrec. simpl. auto.
Qed.

(** ** AuditTracker: more on SetFailure, Get and Sync *)

(** X1: SetFailure followed by Get: when the named record exists, Get of that
    name answers a record whose failure is {VerificationFailed, message} and
    whose time is the reading of the clock, its other fields being those of
    the record before; Get of any other name answers what it did before, and
    the clock is read once.  When the record does not exist nothing changes
    and the clock is not read. *)
Theorem SetFailure_Get c name message w k :
  fst (SetFailure c name message w) = Returned tt /\
  match records w !! name with
  | Some r =>
      ticks (snd (SetFailure c name message w)) = S (ticks w) /\
      if decide (k = name)
      then exists r',
             fst (Get k (snd (SetFailure c name message w))) = Returned (Some r') /\
             Failure r' = Some {| Reason := "VerificationFailed"; Message := message |} /\
             At r' = clock c (ticks w) /\
             Name r' = Name r /\ ID r' = ID r /\ Location r' = Location r /\
             Release r' = Release r /\
             ImageStreamNamespace r' = ImageStreamNamespace r /\
             ImageStreamName r' = ImageStreamName r
      else fst (Get k (snd (SetFailure c name message w))) = Returned (records w !! k)
  | None => snd (SetFailure c name message w) = w
  end.
Proof.
  unfold SetFailure, Get, timeNow, bind, gets, modify, ret.
  destruct (records w !! name) as [r|] eqn:E; simpl; [|auto].
  split; [reflexivity|]. split; [reflexivity|].
  destruct (decide (k = name)) as [->|Hne].
  - eexists. rewrite lookup_insert_eq. split; [reflexivity|]. simpl. auto 10.
  - rewrite lookup_insert_ne by congruence. reflexivity.
Qed.

(** A recognized tag without record gets the record of a first sighting, and
    is queued. *)
Lemma syncTags_creates c release now tags found w n :
  records w !! n = None ->
  n ∈ recognisedNames c tags ->
  records (snd (foldM (syncTag c release now) found tags w)) !! n
  = Some (freshRecord c release now n) /\
  exists q,
    trackerQueue (snd (foldM (syncTag c release now) found tags w))
    = (trackerQueue w ++ q)%list /\ n ∈ q.
Proof.
  revert found w. induction tags as [|tag tags IH]; intros found w Hn Hin.
  - simpl in Hin. set_solver.
  - rewrite syncTags_step. simpl in Hin.
    destruct (recognisedTag c tag) eqn:E.
    + destruct (syncTag_facts c release now found tag w E) as (_ & Hother & Hkey & Hqueue).
      destruct (decide (n = tagName tag)) as [->|Hne].
      * rewrite Hn in Hkey, Hqueue. split.
        -- apply syncTags_fixed; [exact Hkey|reflexivity].
        -- destruct (syncTags_queue c release now tags (found ∪ {[tagName tag]})
                       (snd (syncTag c release now found tag w))) as [q Hq].
           rewrite Hq, Hqueue, <- app_assoc. eexists. split; [reflexivity|]. set_solver.
      * destruct (IH (found ∪ {[tagName tag]}) (snd (syncTag c release now found tag w)))
          as (Hrec & q & Hq & Hnq); [rewrite Hother by exact Hne; exact Hn|set_solver|].
        split; [exact Hrec|]. rewrite Hq, Hqueue, <- app_assoc.
        eexists. split; [reflexivity|]. set_solver.
    + rewrite (syncTag_skip _ _ _ _ _ _ E). simpl. apply IH; assumption.
Qed.

(** X2: In stable mode, a recognized tag (source annotation, non-empty name,
    phase Accepted, Ready or Rejected) that has no record gets one with the
    resolved digest and location, the release's name and source stream, the
    time of the Sync and no failure, and the tag is queued; this holds also
    when the tag occurs several times in the tag list. *)
Theorem Sync_creates c release w n :
  cfgAs (Config release) = releaseConfigModeStable c ->
  n ∈ recognisedTags c release ->
  records w !! n = None ->
  records (snd (Sync c release w)) !! n
  = Some (freshRecord c release (clock c (ticks w)) n) /\
  exists q,
    trackerQueue (snd (Sync c release w)) = (trackerQueue w ++ q)%list /\ n ∈ q.
Proof.
  intros Hstable Hin Hnone. rewrite (Sync_stable _ _ _ Hstable). simpl.
  destruct (syncTags_creates c release (clock c (ticks w)) (isTags (Target release)) ∅
              (set_ticks S w) n Hnone Hin) as [Hrec Hq].
  split; [|exact Hq].
  rewrite removeOldTags_lookup, Hrec. rewrite decide_True by (right; exact Hin). reflexivity.
Qed.

(** Every recognized tag has a record after the loop. *)
Lemma syncTags_tracked c release now tags found w k :
  k ∈ recognisedNames c tags ->
  is_Some (records (snd (foldM (syncTag c release now) found tags w)) !! k).
Proof.
  intros Hin. destruct (records w !! k) as [r|] eqn:E.
  - destruct (syncTags_keeps c release now tags found w k r E) as [H|[_ H]];
      rewrite H; eauto.
  - destruct (syncTags_creates c release now tags found w k E Hin) as [H _].
    rewrite H. eauto.
Qed.

Lemma Sync_tracks_recognised c release w k :
  cfgAs (Config release) = releaseConfigModeStable c ->
  k ∈ recognisedTags c release ->
  is_Some (records (snd (Sync c release w)) !! k).
Proof.
  intros Hstable Hin. rewrite (Sync_stable _ _ _ Hstable). simpl.
  rewrite removeOldTags_lookup.
  destruct (syncTags_tracked c release (clock c (ticks w)) (isTags (Target release)) ∅
              (set_ticks S w) k Hin) as [r Hr].
  rewrite Hr. rewrite decide_True by (right; exact Hin). eauto.
Qed.

Lemma Sync_owned_recognised c release w k r :
  cfgAs (Config release) = releaseConfigModeStable c ->
  records (snd (Sync c release w)) !! k = Some r ->
  Release r = cfgName (Config release) ->
  k ∈ recognisedTags c release.
Proof.
  intros Hstable Hr Hown. rewrite (Sync_stable _ _ _ Hstable) in Hr. simpl in Hr.
  rewrite removeOldTags_lookup in Hr.
  destruct (records _ !! k) as [r'|]; [|discriminate].
  destruct (decide _) as [[Hne|Hin]|]; [| |discriminate].
  - injection Hr as <-. contradiction.
  - exact Hin.
Qed.

(** X3: After a stable-mode Sync(release), every recognized tag of the release
    has a record, and every record whose owning release is this release is
    stored under a recognized tag of the call. *)
Theorem Sync_postcondition c release w k :
  cfgAs (Config release) = releaseConfigModeStable c ->
  let w' := snd (Sync c release w) in
  (k ∈ recognisedTags c release -> is_Some (records w' !! k)) /\
  (forall r, records w' !! k = Some r ->
     Release r = cfgName (Config release) -> k ∈ recognisedTags c release).
Proof.
  intros Hstable. split.
  - apply Sync_tracks_recognised. exact Hstable.
  - intros r. apply Sync_owned_recognised. exact Hstable.
Qed.

(** X4: Sync never stores a drift: a record that exists before and after a
    Sync keeps its name, digest, location, owning release and source stream
    whatever the release resolves for its tag; it is either unchanged or has
    its time set to the Sync's clock reading and its failure cleared. *)
Theorem Sync_keeps_identity c release w k r r' :
  records w !! k = Some r ->
  records (snd (Sync c release w)) !! k = Some r' ->
  Name r' = Name r /\ ID r' = ID r /\ Location r' = Location r /\
  Release r' = Release r /\
  ImageStreamNamespace r' = ImageStreamNamespace r /\
  ImageStreamName r' = ImageStreamName r /\
  (r' = r \/ (At r' = clock c (ticks w) /\ Failure r' = None)).
Proof.
  intros Hk Hk'.
  destruct (decide (cfgAs (Config release) = releaseConfigModeStable c)) as [Hs|Hs].
  - rewrite (Sync_stable _ _ _ Hs) in Hk'. simpl in Hk'.
    rewrite removeOldTags_lookup in Hk'.
    destruct (syncTags_keeps c release (clock c (ticks w)) (isTags (Target release)) ∅
                (set_ticks S w) k r Hk) as [H|[_ H]];
      rewrite H in Hk'; destruct (decide _); try discriminate;
      injection Hk' as <-; simpl; auto 10.
  - rewrite (Sync_not_stable _ _ _ Hs) in Hk'. simpl in Hk'.
    assert (r' = r) as -> by congruence. auto 10.
Qed.

(** X6: Sync returns normally and calls no collaborator: the trace, the
    signature store, the jobs and the controller's delayed queue are
    unchanged, the tracker's queue only grows, and for a release that is not
    in stable mode the whole state is unchanged. *)
Theorem Sync_calls_nothing c release w :
  let w' := snd (Sync c release w) in
  fst (Sync c release w) = Returned tt /\
  trace w' = trace w /\ signatures w' = signatures w /\ jobs w' = jobs w /\
  auditQueue w' = auditQueue w /\
  (exists q, trackerQueue w' = (trackerQueue w ++ q)%list) /\
  (cfgAs (Config release) = releaseConfigModeStable c \/ w' = w).
Proof.
  destruct (Sync_frame c release w) as (Hret & Ht & Hs & Hj & Hq).
  simpl. repeat split; auto.
  - destruct (decide (cfgAs (Config release) = releaseConfigModeStable c)) as [Hst|Hst].
    + rewrite (Sync_stable _ _ _ Hst). simpl.
      destruct (syncTags_queue c release (clock c (ticks w)) (isTags (Target release)) ∅
                  (set_ticks S w)) as [q Hqueue].
      exists q. exact Hqueue.
    + rewrite (Sync_not_stable _ _ _ Hst). exists []. simpl. rewrite app_nil_r. reflexivity.
  - destruct (decide (cfgAs (Config release) = releaseConfigModeStable c)) as [Hst|Hst];
      [left; exact Hst|right].
    rewrite (Sync_not_stable _ _ _ Hst). reflexivity.
Qed.

(** X7: Invariant: starting from NewAuditTracker, after any sequence of Sync
    calls and tag reconciliations every record is stored under the key equal
    to its own Name field (so SetFailure(record.Name, ...) in syncAuditTag
    always hits the record that Get(releaseName) returned). *)
Theorem run_from_new_named (steps : list Step) (w : World) :
  tracker_named (run steps (NewAuditTracker w)).
Proof. apply run_named, NewAuditTracker_named. Qed.

(** X5: Sync is idempotent on the records: a second Sync of the same stable
    release right after the first leaves the record map exactly as the first
    left it, when at the readings of the clock the second Sync makes in its
    loop no record is more than 12 hours old. *)
Theorem Sync_idempotent c release w :
  cfgAs (Config release) = releaseConfigModeStable c ->
  (forall k r n,
     records (snd (Sync c release w)) !! k = Some r ->
     (ticks (snd (Sync c release w)) < n
      <= ticks (snd (Sync c release w)) + length (isTags (Target release)))%nat ->
     clock c n - At r <= 12 * GoTime.Hour) ->
  records (snd (Sync c release (snd (Sync c release w)))) = records (snd (Sync c release w)).
Proof.
  intros Hstable Hfresh.
  set (w1 := snd (Sync c release w)) in *.
  assert (Hexp : forall k r n, records (set_ticks S w1) !! k = Some r ->
            (ticks (set_ticks S w1) <= n
             < ticks (set_ticks S w1) + length (isTags (Target release)))%nat ->
            expired c n r = false).
  { intros k r n Hk Hn. rewrite expired_elapsed.
    assert (Hle : clock c n - At r <= 12 * GoTime.Hour)
      by (apply (Hfresh k r n Hk); simpl in Hn; lia).
    rewrite Z.gtb_ltb. apply Z.ltb_ge. exact Hle. }
  assert (Hall : forall k, k ∈ recognisedTags c release -> is_Some (records w1 !! k)).
  { intros k. apply (Sync_tracks_recognised c release w k Hstable). }
  assert (Hown : forall k r, records w1 !! k = Some r ->
                   Release r ≠ cfgName (Config release) \/ k ∈ recognisedTags c release).
  { intros k r Hk.
    destruct (decide (Release r = cfgName (Config release))) as [Heq|Hne]; [|left; exact Hne].
    right. exact (Sync_owned_recognised c release w k r Hstable Hk Heq). }
  rewrite (Sync_stable c release w1 Hstable). simpl.
  apply map_eq. intros k. rewrite removeOldTags_lookup.
  rewrite (syncTags_unchanged_in c release _ _ ∅ (set_ticks S w1) Hall Hexp k). simpl.
  destruct (records w1 !! k) as [r|] eqn:E; [|reflexivity].
  rewrite decide_True by exact (Hown _ _ E). reflexivity.
Qed.

(** ** More on the job name *)

Lemma slice_to_Replace (n : nat) (s : string) (old new : Ascii.ascii) :
  slice_to n (Replace s old new) = Replace (slice_to n s) old new.
Proof.
  revert s; induction n as [|n IH]; intros [|a s]; simpl; try reflexivity.
  rewrite IH. reflexivity.
Qed.

Lemma auditVerifyJobName_cut (id algorithm rest : string) :
  cut colon id = Some (algorithm, rest) ->
  auditVerifyJobName id = "verify-" +:+ Replace (slice_to 56 rest) colon dash.
Proof.
  intros Hcut. rewrite auditVerifyJobName_eq, Hcut.
  rewrite <- slice_to_Replace. reflexivity.
Qed.

(** X25: The job name depends only on the first 56 bytes after the first colon
    of the digest: two digests that agree there get the same job name,
    whatever their algorithm prefix and whatever follows (so two sha256
    digests that differ only in their last 8 hex characters share one
    verification job). *)
Theorem auditVerifyJobName_collision (id1 id2 a1 r1 a2 r2 : string) :
  cut colon id1 = Some (a1, r1) ->
  cut colon id2 = Some (a2, r2) ->
  slice_to 56 r1 = slice_to 56 r2 ->
  auditVerifyJobName id1 = auditVerifyJobName id2.
Proof.
  intros H1 H2 Heq.
  rewrite (auditVerifyJobName_cut _ _ _ H1), (auditVerifyJobName_cut _ _ _ H2), Heq.
  reflexivity.
Qed.

Lemma auditVerifyJobName_injective (id1 id2 a1 r1 a2 r2 : string) :
  cut colon id1 = Some (a1, r1) ->
  cut colon id2 = Some (a2, r2) ->
  contains colon r1 = false ->
  contains colon r2 = false ->
  (String.length r1 <= 56)%nat ->
  (String.length r2 <= 56)%nat ->
  auditVerifyJobName id1 = auditVerifyJobName id2 ->
  r1 = r2.
Proof.
  intros H1 H2 Hc1 Hc2 Hl1 Hl2.
  rewrite (auditVerifyJobName_cut _ _ _ H1), (auditVerifyJobName_cut _ _ _ H2).
  rewrite !slice_to_all by assumption.
  rewrite !Replace_absent by assumption.
  intros Heq. injection Heq. auto.
Qed.

(** ** The termination message *)

(** X26: The less function handed to sort.Slice holds of (x, y) exactly when y
    is not terminated, or both are terminated and x finished strictly later
    than y; in particular less(x, x) holds exactly for a non-terminated x, so
    the function is not irreflexive and two non-terminated statuses are each
    less than the other. *)
Theorem terminatedLess_spec (x y : ContainerStatus) :
  (terminatedLess x y = true <->
   Terminated y = None \/
   exists tx ty, Terminated x = Some tx /\ Terminated y = Some ty /\
                 FinishedAt ty < FinishedAt tx) /\
  (terminatedLess x x = true <-> Terminated x = None).
Proof.
  unfold terminatedLess. split.
  - destruct (Terminated y) as [ty|], (Terminated x) as [tx|]; split; intros H;
      try discriminate; try (left; reflexivity); try reflexivity.
    + right. exists tx, ty. apply Z.ltb_lt in H. auto.
    + destruct H as [H|(tx' & ty' & Hx & Hy & Hlt)]; [discriminate|].
      injection Hx as <-. injection Hy as <-. apply Z.ltb_lt. exact Hlt.
    + destruct H as [H|(tx' & ty' & Hx & _)]; discriminate.
  - destruct (Terminated x) as [tx|]; split; intros H; try reflexivity; try discriminate.
    apply Z.ltb_lt in H. lia.
Qed.

Lemma firstTerminated_spec (onlySuccess : bool) (statuses : list ContainerStatus) :
  match firstTerminated onlySuccess statuses with
  | (message, code, true) =>
      exists before s t after,
        statuses = (before ++ s :: after)%list /\
        Forall (passedOver onlySuccess) before /\
        Terminated s = Some t /\
        message = termMessage t /\ code = ExitCode t /\
        (onlySuccess = true -> code = 0)
  | (message, code, false) =>
      message = "" /\ code = 0 /\ Forall (passedOver onlySuccess) statuses
  end.
Proof.
  induction statuses as [|s statuses IH]; simpl.
  - repeat split. constructor.
  - destruct (Terminated s) as [t|] eqn:Et.
    + destruct (onlySuccess && negb (ExitCode t =? 0)) eqn:Eskip.
      * apply andb_true_iff in Eskip as [-> Hcode]. apply negb_true_iff in Hcode.
        apply Z.eqb_neq in Hcode.
        assert (Hs : passedOver true s) by (unfold passedOver; rewrite Et; auto).
        destruct (firstTerminated true statuses) as [[message code] [|]].
        -- destruct IH as (before & s' & t' & after & -> & Hbefore & Hrest).
           exists (s :: before), s', t', after. split; [reflexivity|].
           split; [constructor; assumption|exact Hrest].
        -- destruct IH as (-> & -> & Hall). repeat split. constructor; assumption.
      * exists [], s, t, statuses. repeat split; auto.
        intros ->. simpl in Eskip. apply negb_false_iff in Eskip.
        apply Z.eqb_eq in Eskip. exact Eskip.
    + assert (Hs : passedOver onlySuccess s) by (unfold passedOver; rewrite Et; exact I).
      destruct (firstTerminated onlySuccess statuses) as [[message code] [|]].
      * destruct IH as (before & s' & t' & after & -> & Hbefore & Hrest).
        exists (s :: before), s', t', after. split; [reflexivity|].
        split; [constructor; assumption|exact Hrest].
      * destruct IH as (-> & -> & Hall). repeat split. constructor; assumption.
Qed.

(** X27: When the terminated statuses of the sorted list come latest first,
    the search loop (onlySuccess false) answers the message and exit code of a
    terminated status whose finish time is at least that of every terminated
    status of the list, and answers not-found exactly when no status is
    terminated. *)
Theorem firstTerminated_most_recent (statuses : list ContainerStatus) :
  latestFirst statuses ->
  match firstTerminated false statuses with
  | (message, code, true) =>
      exists s t,
        s ∈ statuses /\ Terminated s = Some t /\
        message = termMessage t /\ code = ExitCode t /\
        forall s' t', s' ∈ statuses -> Terminated s' = Some t' ->
                      FinishedAt t' <= FinishedAt t
  | (_, _, false) => forall s, s ∈ statuses -> Terminated s = None
  end.
Proof.
  intros Hsorted. pose proof (firstTerminated_spec false statuses) as H.
  destruct (firstTerminated false statuses) as [[message code] [|]].
  - destruct H as (before & s & t & after & -> & Hbefore & Ht & -> & -> & _).
    exists s, t. split; [set_solver|]. repeat split; auto.
    intros s' t' Hin Ht'. apply elem_of_app in Hin as [Hin|Hin].
    + rewrite Forall_forall in Hbefore. specialize (Hbefore s' Hin).
      unfold passedOver in Hbefore. rewrite Ht' in Hbefore.
      destruct Hbefore as [? _]. discriminate.
    + apply elem_of_cons in Hin as [->|Hin].
      * assert (t' = t) as -> by congruence. lia.
      * apply list_elem_of_lookup in Hin as [j Hj].
        apply (Hsorted (length before) (length before + S j)%nat s s' t t'); auto.
        -- lia.
        -- rewrite lookup_app_r by lia. rewrite Nat.sub_diag. reflexivity.
        -- rewrite lookup_app_r by lia.
           replace (length before + S j - length before)%nat with (S j) by lia.
           exact Hj.
  - destruct H as (_ & _ & Hall). intros s Hin.
    rewrite Forall_forall in Hall. specialize (Hall s Hin). unfold passedOver in Hall.
    destruct (Terminated s) as [t|]; [|reflexivity]. destruct Hall as [? _]. discriminate.
Qed.

(** X28: ensureJobTerminationMessageRetrieved answers found only when the job
    has active pods and the pod lookup succeeded, and then the message and
    exit code are those of a terminated status among the looked-up statuses as
    sorted; with onlySuccess the exit code answered is 0. *)
Theorem termination_message_retrieved c job selector container onlySuccess w message code :
  fst (ensureJobTerminationMessageRetrieved c job selector container onlySuccess w)
  = Returned (message, code, true) ->
  jobActive job <> 0 /\
  exists statuses s t,
    findJobContainerStatus c job selector container = (statuses, None) /\
    s ∈ sortSlice c terminatedLess statuses /\
    Terminated s = Some t /\ message = termMessage t /\ code = ExitCode t /\
    (onlySuccess = true -> code = 0).
Proof.
  unfold ensureJobTerminationMessageRetrieved, emit, bind, modify, ret.
  destruct (jobActive job =? 0) eqn:Eactive; [discriminate|].
  apply Z.eqb_neq in Eactive. simpl.
  destruct (findJobContainerStatus c job selector container) as [statuses [err|]] eqn:Efind;
    simpl; [discriminate|].
  intros H. injection H as H. split; [exact Eactive|].
  pose proof (firstTerminated_spec onlySuccess (sortSlice c terminatedLess statuses)) as Hspec.
  rewrite H in Hspec.
  destruct Hspec as (before & s & t & after & Hl & _ & Ht & -> & -> & Hcode).
  exists statuses, s, t. split; [reflexivity|]. rewrite Hl.
  split; [set_solver|]. auto.
Qed.

(** ** syncAudit: a panic of the body *)

(** X29: When the statements of syncAudit panic with a non-nil value,
    syncAudit panics with that same value and leaves the state as the
    statements left it: the deferred recover-and-panic passes the value on. *)
Theorem syncAudit_propagates_panic (c : Controller) (key : queueKey) (w w' : World)
    (v : PanicValue) :
  syncAudit_body c key w = (Panicked v, w') ->
  v <> PNil ->
  syncAudit c key w = (Panicked v, w').
Proof.
  intros Hbody Hv. rewrite (syncAudit_repanics c key w w' v Hbody).
  destruct v; try reflexivity. congruence.
Qed.

(** ** The properties above at concrete inputs *)

Lemma tracker_named_singleton (w : World) (n : string) (r : AuditRecord) :
  records w = {[ n := r ]} -> Name r = n -> tracker_named w.
Proof.
  intros Hw Hn k r' Hk. rewrite Hw in Hk.
  apply lookup_singleton_Some in Hk as [<- <-]. exact Hn.
Qed.

Ltac example_reaches :=
  repeat split; try reflexivity; try discriminate; try (simpl; set_solver).

Ltac example_admitted :=
  let H := fresh in
  intros [H|H]; [apply H; reflexivity|vm_compute in H; discriminate].

Lemma verifyJobFrom_job_witness :
  auditVerifyJobSelector Examples.clusterController Examples.verifyJob = true /\
  (exists annotations,
     jobAnnotations Examples.verifyJob = Some annotations /\
     annotations !! releaseAnnotationJobPurpose Examples.clusterController = Some "audit") /\
  (exists rest,
     jobContainers Examples.verifyJob =
       {| cName := "verify";
          cCommand := ["/bin/bash"; "-c"; "" +:+ verifyScript; "";
                       Location Examples.digestRecord] |}
       :: rest /\
     (length (jobContainers Examples.verifyJob)
      = length (jobContainers (Examples.baseJob "verify-abcd" "")))%nat) /\
  jobName Examples.verifyJob = jobName (Examples.baseJob "verify-abcd" "") /\
  jobCompletionTime Examples.verifyJob
  = jobCompletionTime (Examples.baseJob "verify-abcd" "") /\
  jobActive Examples.verifyJob = jobActive (Examples.baseJob "verify-abcd" "").
Proof.
  apply (verifyJobFrom_job Examples.clusterController (Examples.baseJob "verify-abcd" "") ""
           Examples.plainRelease Examples.digestRecord Examples.verifyJob).
  reflexivity.
Defined.

Lemma unfinishedAuditJobs_insert_witness :
  unfinishedAuditJobs Examples.clusterController
    (set_jobs (insert "verify-abcd" Examples.verifyJob) Examples.twoJobsWorld) =
  unfinishedAuditJobs Examples.clusterController Examples.twoJobsWorld +
  (if auditVerifyJobSelector Examples.clusterController Examples.verifyJob
   then match jobCompletionTime Examples.verifyJob with Some _ => 0 | None => 1 end
   else 0).
Proof.
  apply (unfinishedAuditJobs_insert Examples.clusterController Examples.twoJobsWorld
           "verify-abcd" Examples.verifyJob).
  reflexivity.
Defined.

Lemma admission_raises_count_witness :
  jobs (snd (syncAuditTag Examples.clusterController "t" Examples.twoJobsWorld))
  = <[ auditVerifyJobName (ID Examples.digestRecord) := Examples.verifyJob ]>
      (jobs Examples.twoJobsWorld) /\
  unfinishedAuditJobs Examples.clusterController
    (snd (syncAuditTag Examples.clusterController "t" Examples.twoJobsWorld))
  = unfinishedAuditJobs Examples.clusterController Examples.twoJobsWorld + 1.
Proof.
  apply (admission_raises_count Examples.clusterController "t" Examples.twoJobsWorld
           Examples.digestRecord Examples.plainRelease Examples.verifyJob).
  - example_reaches.
  - split; vm_compute; discriminate.
  - example_admitted.
  - reflexivity.
  - reflexivity.
  - reflexivity.
  - reflexivity.
Defined.

Lemma syncAuditTag_load_fails_witness :
  syncAuditTag Examples.failingLoad "t" Examples.unsignedWorld =
    (Returned (Some "not found"),
     set_trace (fun t => (t ++ [EvLoadRelease (ImageStreamNamespace Examples.digestRecord)
                                  (ImageStreamName Examples.digestRecord)])%list)
       Examples.unsignedWorld).
Proof.
  apply (syncAuditTag_load_fails Examples.failingLoad "t" Examples.unsignedWorld
           Examples.digestRecord None (Some "not found")).
  - reflexivity.
  - reflexivity.
  - discriminate.
  - reflexivity.
  - left. discriminate.
Defined.

Lemma syncAuditTag_no_image_witness :
  syncAuditTag Examples.noImageController "t" Examples.unsignedWorld =
    (Returned None,
     set_trace (fun t => (t ++ [EvLoadRelease (ImageStreamNamespace Examples.digestRecord)
                                  (ImageStreamName Examples.digestRecord);
                                EvHasSignature (ID Examples.digestRecord)])%list)
       Examples.unsignedWorld).
Proof.
  apply (syncAuditTag_no_image Examples.noImageController "t" Examples.unsignedWorld
           Examples.digestRecord Examples.plainRelease).
  - example_reaches.
  - reflexivity.
Defined.

Lemma syncAuditTag_local_signs_witness :
  fst (syncAuditTag Examples.localController "t" Examples.unsignedWorld) = Returned None /\
  new_events Examples.unsignedWorld
    (snd (syncAuditTag Examples.localController "t" Examples.unsignedWorld))
  = [EvLoadRelease (ImageStreamNamespace Examples.digestRecord)
       (ImageStreamName Examples.digestRecord);
     EvHasSignature (ID Examples.digestRecord);
     EvExecVerify (Location Examples.digestRecord);
     EvSign (ID Examples.digestRecord) (Location Examples.digestRecord);
     EvPutSignature (ID Examples.digestRecord) []] /\
  signatures (snd (syncAuditTag Examples.localController "t" Examples.unsignedWorld))
  = signatures Examples.unsignedWorld ∪ {[ ID Examples.digestRecord ]} /\
  records (snd (syncAuditTag Examples.localController "t" Examples.unsignedWorld))
  = records Examples.unsignedWorld /\
  jobs (snd (syncAuditTag Examples.localController "t" Examples.unsignedWorld))
  = jobs Examples.unsignedWorld /\
  auditQueue (snd (syncAuditTag Examples.localController "t" Examples.unsignedWorld))
  = auditQueue Examples.unsignedWorld.
Proof.
  apply (syncAuditTag_local_signs Examples.localController "t" Examples.unsignedWorld
           Examples.digestRecord Examples.plainRelease ""
           (fun _ _ => ([], None)) []).
  - example_reaches.
  - reflexivity.
  - reflexivity.
  - reflexivity.
  - reflexivity.
  - reflexivity.
Defined.

Lemma syncAuditTag_local_fails_witness :
  fst (syncAuditTag Examples.failingVerifyController "t" Examples.unsignedWorld)
  = Returned None /\
  new_events Examples.unsignedWorld
    (snd (syncAuditTag Examples.failingVerifyController "t" Examples.unsignedWorld))
  = [EvLoadRelease (ImageStreamNamespace Examples.digestRecord)
       (ImageStreamName Examples.digestRecord);
     EvHasSignature (ID Examples.digestRecord);
     EvExecVerify (Location Examples.digestRecord)] /\
  (exists r',
     records (snd (syncAuditTag Examples.failingVerifyController "t" Examples.unsignedWorld))
       !! "t" = Some r' /\
     Failure r' = Some {| Reason := "VerificationFailed";
                          Message := "Unable to verify release:" +:+ newline +:+
                                     "error: image signature mismatch" |} /\
     At r' = 5 /\
     Name r' = Name Examples.digestRecord /\ ID r' = ID Examples.digestRecord /\
     Location r' = Location Examples.digestRecord /\
     Release r' = Release Examples.digestRecord /\
     ImageStreamNamespace r' = ImageStreamNamespace Examples.digestRecord /\
     ImageStreamName r' = ImageStreamName Examples.digestRecord) /\
  (forall k, k ≠ "t" ->
     records (snd (syncAuditTag Examples.failingVerifyController "t" Examples.unsignedWorld))
       !! k = records Examples.unsignedWorld !! k) /\
  signatures (snd (syncAuditTag Examples.failingVerifyController "t" Examples.unsignedWorld))
  = signatures Examples.unsignedWorld /\
  jobs (snd (syncAuditTag Examples.failingVerifyController "t" Examples.unsignedWorld))
  = jobs Examples.unsignedWorld /\
  auditQueue (snd (syncAuditTag Examples.failingVerifyController "t" Examples.unsignedWorld))
  = auditQueue Examples.unsignedWorld.
Proof.
  apply (syncAuditTag_local_fails Examples.failingVerifyController "t" Examples.unsignedWorld
           Examples.digestRecord Examples.plainRelease Examples.verifyOutput
           "exit status 1").
  - apply (tracker_named_singleton _ "t" Examples.digestRecord); reflexivity.
  - example_reaches.
  - reflexivity.
  - reflexivity.
Defined.

Lemma syncAuditTag_job_running_witness :
  fst (syncAuditTag Examples.clusterController "t" Examples.runningJobWorld)
  = Returned None /\
  new_events Examples.runningJobWorld
    (snd (syncAuditTag Examples.clusterController "t" Examples.runningJobWorld))
  = [EvLoadRelease (ImageStreamNamespace Examples.digestRecord)
       (ImageStreamName Examples.digestRecord);
     EvHasSignature (ID Examples.digestRecord); EvListJobs;
     EvGetJob (auditVerifyJobName (ID Examples.digestRecord))] /\
  auditQueue (snd (syncAuditTag Examples.clusterController "t" Examples.runningJobWorld))
  = (auditQueue Examples.runningJobWorld ++ [("t", 10 * GoTime.Second)])%list /\
  records (snd (syncAuditTag Examples.clusterController "t" Examples.runningJobWorld))
  = records Examples.runningJobWorld /\
  jobs (snd (syncAuditTag Examples.clusterController "t" Examples.runningJobWorld))
  = jobs Examples.runningJobWorld /\
  signatures (snd (syncAuditTag Examples.clusterController "t" Examples.runningJobWorld))
  = signatures Examples.runningJobWorld.
Proof.
  apply (syncAuditTag_job_running Examples.clusterController "t" Examples.runningJobWorld
           Examples.digestRecord Examples.plainRelease
           (Examples.auditJob "verify-abcd" None) false).
  - example_reaches.
  - split; vm_compute; discriminate.
  - example_admitted.
  - reflexivity.
  - reflexivity.
Defined.

Lemma syncAuditTag_job_failed_no_pods_witness :
  fst (syncAuditTag Examples.failedJobController "t" Examples.runningJobWorld)
  = Returned None /\
  new_events Examples.runningJobWorld
    (snd (syncAuditTag Examples.failedJobController "t" Examples.runningJobWorld))
  = [EvLoadRelease (ImageStreamNamespace Examples.digestRecord)
       (ImageStreamName Examples.digestRecord);
     EvHasSignature (ID Examples.digestRecord); EvListJobs;
     EvGetJob (auditVerifyJobName (ID Examples.digestRecord))] /\
  (exists r',
     records (snd (syncAuditTag Examples.failedJobController "t" Examples.runningJobWorld))
       !! "t" = Some r' /\
     Failure r' = Some {| Reason := "VerificationFailed";
                          Message := "Unable to verify release for unknown reason" |} /\
     At r' = 0 /\
     Name r' = Name Examples.digestRecord /\ ID r' = ID Examples.digestRecord /\
     Location r' = Location Examples.digestRecord /\
     Release r' = Release Examples.digestRecord /\
     ImageStreamNamespace r' = ImageStreamNamespace Examples.digestRecord /\
     ImageStreamName r' = ImageStreamName Examples.digestRecord) /\
  (forall k, k ≠ "t" ->
     records (snd (syncAuditTag Examples.failedJobController "t" Examples.runningJobWorld))
       !! k = records Examples.runningJobWorld !! k) /\
  auditQueue (snd (syncAuditTag Examples.failedJobController "t" Examples.runningJobWorld))
  = auditQueue Examples.runningJobWorld /\
  jobs (snd (syncAuditTag Examples.failedJobController "t" Examples.runningJobWorld))
  = jobs Examples.runningJobWorld /\
  signatures (snd (syncAuditTag Examples.failedJobController "t" Examples.runningJobWorld))
  = signatures Examples.runningJobWorld.
Proof.
  apply (syncAuditTag_job_failed_no_pods Examples.failedJobController "t"
           Examples.runningJobWorld Examples.digestRecord Examples.plainRelease
           (Examples.auditJob "verify-abcd" None)).
  - apply (tracker_named_singleton _ "t" Examples.digestRecord); reflexivity.
  - example_reaches.
  - split; vm_compute; discriminate.
  - example_admitted.
  - reflexivity.
  - reflexivity.
  - reflexivity.
Defined.

Lemma syncAuditTag_job_create_fails_witness :
  fst (syncAuditTag Examples.refusedCreateController "t" Examples.unsignedWorld)
  = Returned (Some ("unable to verify release before signing: " +:+ "forbidden")) /\
  new_events Examples.unsignedWorld
    (snd (syncAuditTag Examples.refusedCreateController "t" Examples.unsignedWorld))
  = [EvLoadRelease (ImageStreamNamespace Examples.digestRecord)
       (ImageStreamName Examples.digestRecord);
     EvHasSignature (ID Examples.digestRecord); EvListJobs;
     EvGetJob (auditVerifyJobName (ID Examples.digestRecord));
     EvCreateJob Examples.verifyJob] /\
  records (snd (syncAuditTag Examples.refusedCreateController "t" Examples.unsignedWorld))
  = records Examples.unsignedWorld /\
  auditQueue (snd (syncAuditTag Examples.refusedCreateController "t" Examples.unsignedWorld))
  = auditQueue Examples.unsignedWorld /\
  jobs (snd (syncAuditTag Examples.refusedCreateController "t" Examples.unsignedWorld))
  = jobs Examples.unsignedWorld /\
  signatures (snd (syncAuditTag Examples.refusedCreateController "t" Examples.unsignedWorld))
  = signatures Examples.unsignedWorld.
Proof.
  apply (syncAuditTag_job_create_fails Examples.refusedCreateController "t"
           Examples.unsignedWorld Examples.digestRecord Examples.plainRelease
           Examples.verifyJob "forbidden").
  - example_reaches.
  - split; vm_compute; discriminate.
  - example_admitted.
  - reflexivity.
  - reflexivity.
  - reflexivity.
Defined.

Lemma syncAuditTag_job_build_panics_witness :
  fst (syncAuditTag Examples.bareBaseController "t" Examples.unsignedWorld)
  = Panicked (PRuntimeError "assignment to entry in nil map") /\
  jobs (snd (syncAuditTag Examples.bareBaseController "t" Examples.unsignedWorld))
  = jobs Examples.unsignedWorld /\
  records (snd (syncAuditTag Examples.bareBaseController "t" Examples.unsignedWorld))
  = records Examples.unsignedWorld.
Proof.
  apply (syncAuditTag_job_build_panics Examples.bareBaseController "t"
           Examples.unsignedWorld Examples.digestRecord Examples.plainRelease
           (PRuntimeError "assignment to entry in nil map")).
  - example_reaches.
  - split; vm_compute; discriminate.
  - example_admitted.
  - reflexivity.
  - reflexivity.
Defined.

Lemma syncAuditTag_without_signer_witness :
  Forall (fun e => isSigning e = false)
    (new_events Examples.unsignedWorld
       (snd (syncAuditTag Examples.failingLoad "t" Examples.unsignedWorld))) /\
  signatures (snd (syncAuditTag Examples.failingLoad "t" Examples.unsignedWorld))
  = signatures Examples.unsignedWorld.
Proof.
  apply (syncAuditTag_without_signer Examples.failingLoad "t" Examples.unsignedWorld).
  reflexivity.
Defined.

Lemma syncAuditTag_error_not_recorded_witness :
  records (snd (syncAuditTag Examples.failingLoad "t" Examples.unsignedWorld))
  = records Examples.unsignedWorld /\
  auditQueue (snd (syncAuditTag Examples.failingLoad "t" Examples.unsignedWorld))
  = auditQueue Examples.unsignedWorld /\
  ticks (snd (syncAuditTag Examples.failingLoad "t" Examples.unsignedWorld))
  = ticks Examples.unsignedWorld.
Proof.
  apply (syncAuditTag_error_not_recorded Examples.failingLoad "t" Examples.unsignedWorld).
  vm_compute. discriminate.
Defined.

Lemma syncAuditTag_frame_witness :
  (forall k, k ≠ "t" ->
     records (snd (syncAuditTag Examples.localController "t" Examples.noDigestWorld)) !! k
     = records Examples.noDigestWorld !! k) /\
  (match records Examples.noDigestWorld !! "t" with
   | Some r =>
       exists r',
         records (snd (syncAuditTag Examples.localController "t" Examples.noDigestWorld))
           !! "t" = Some r' /\
         Name r' = Name r /\ ID r' = ID r /\ Location r' = Location r /\
         Release r' = Release r /\
         ImageStreamNamespace r' = ImageStreamNamespace r /\
         ImageStreamName r' = ImageStreamName r
   | None => snd (syncAuditTag Examples.localController "t" Examples.noDigestWorld)
             = Examples.noDigestWorld
   end) /\
  trackerQueue (snd (syncAuditTag Examples.localController "t" Examples.noDigestWorld))
  = trackerQueue Examples.noDigestWorld.
Proof.
  apply (syncAuditTag_frame Examples.localController "t" Examples.noDigestWorld).
  apply (tracker_named_singleton _ "t" Examples.noDigestRecord); reflexivity.
Defined.

Lemma Sync_creates_witness :
  records (snd (Sync Examples.clusterController Examples.taggedRelease Examples.emptyWorld))
    !! "t"
  = Some (freshRecord Examples.clusterController Examples.taggedRelease
            (clock Examples.clusterController (ticks Examples.emptyWorld)) "t") /\
  exists q,
    trackerQueue (snd (Sync Examples.clusterController Examples.taggedRelease
                         Examples.emptyWorld))
    = (trackerQueue Examples.emptyWorld ++ q)%list /\ "t" ∈ q.
Proof.
  apply (Sync_creates Examples.clusterController Examples.taggedRelease Examples.emptyWorld
           "t").
  - reflexivity.
  - apply (bool_decide_unpack _). vm_compute. exact I.
  - reflexivity.
Defined.

Lemma Sync_postcondition_witness :
  ("t" ∈ recognisedTags Examples.clusterController Examples.taggedRelease ->
   is_Some (records (snd (Sync Examples.clusterController Examples.taggedRelease
                            Examples.staleWorld)) !! "t")) /\
  (forall r,
     records (snd (Sync Examples.clusterController Examples.taggedRelease
                     Examples.staleWorld)) !! "t" = Some r ->
     Release r = cfgName (Config Examples.taggedRelease) ->
     "t" ∈ recognisedTags Examples.clusterController Examples.taggedRelease).
Proof.
  apply (Sync_postcondition Examples.clusterController Examples.taggedRelease
           Examples.staleWorld "t").
  reflexivity.
Defined.

Lemma Sync_keeps_identity_witness :
  Name (refreshed Examples.thirteenHours Examples.foreignRecord)
  = Name Examples.foreignRecord /\
  ID (refreshed Examples.thirteenHours Examples.foreignRecord) = ID Examples.foreignRecord /\
  Location (refreshed Examples.thirteenHours Examples.foreignRecord)
  = Location Examples.foreignRecord /\
  Release (refreshed Examples.thirteenHours Examples.foreignRecord)
  = Release Examples.foreignRecord /\
  ImageStreamNamespace (refreshed Examples.thirteenHours Examples.foreignRecord)
  = ImageStreamNamespace Examples.foreignRecord /\
  ImageStreamName (refreshed Examples.thirteenHours Examples.foreignRecord)
  = ImageStreamName Examples.foreignRecord /\
  (refreshed Examples.thirteenHours Examples.foreignRecord = Examples.foreignRecord \/
   (At (refreshed Examples.thirteenHours Examples.foreignRecord)
    = clock Examples.lateController (ticks Examples.foreignWorld) /\
    Failure (refreshed Examples.thirteenHours Examples.foreignRecord) = None)).
Proof.
  apply (Sync_keeps_identity Examples.lateController Examples.taggedRelease
           Examples.foreignWorld "t" Examples.foreignRecord
           (refreshed Examples.thirteenHours Examples.foreignRecord)).
  - reflexivity.
  - vm_compute. reflexivity.
Defined.

Lemma Sync_idempotent_witness :
  records (snd (Sync Examples.tickingController Examples.taggedRelease
                  (snd (Sync Examples.tickingController Examples.taggedRelease
                          Examples.failedWorld))))
  = records (snd (Sync Examples.tickingController Examples.taggedRelease
                    Examples.failedWorld)).
Proof.
  apply (Sync_idempotent Examples.tickingController Examples.taggedRelease
           Examples.failedWorld).
  - reflexivity.
  - intros k r n Hk Hn.
    assert (Hrecords :
      records (snd (Sync Examples.tickingController Examples.taggedRelease
                      Examples.failedWorld))
      = {[ "t" := Examples.failedDriftedRecord ]}) by (vm_compute; reflexivity).
    assert (Hticks :
      ticks (snd (Sync Examples.tickingController Examples.taggedRelease
                    Examples.failedWorld)) = 2%nat) by (vm_compute; reflexivity).
    rewrite Hrecords in Hk. apply lookup_singleton_Some in Hk as [_ <-].
    rewrite Hticks in Hn. simpl in Hn. assert (n = 3%nat) as -> by lia.
    vm_compute. discriminate.
Defined.

Lemma auditVerifyJobName_collision_witness :
  auditVerifyJobName Examples.longDigestA = auditVerifyJobName Examples.longDigestB.
Proof.
  apply (auditVerifyJobName_collision Examples.longDigestA Examples.longDigestB
           "sha256" (Examples.hex56 +:+ "89abcdef")
           "sha256" (Examples.hex56 +:+ "00000000")).
  - reflexivity.
  - reflexivity.
  - reflexivity.
Defined.

Lemma statuses_latestFirst : latestFirst Examples.statuses.
Proof.
  intros i j si sj ti tj Hlt Hi Hj Hti Htj.
  destruct i as [|[|[|i]]], j as [|[|[|j]]]; simpl in *; try lia; try discriminate;
    simplify_eq; simpl in *; simplify_eq; simpl; lia.
Qed.

Lemma firstTerminated_most_recent_witness :
  match firstTerminated false Examples.statuses with
  | (message, code, true) =>
      exists s t,
        s ∈ Examples.statuses /\ Terminated s = Some t /\
        message = termMessage t /\ code = ExitCode t /\
        forall s' t', s' ∈ Examples.statuses -> Terminated s' = Some t' ->
                      FinishedAt t' <= FinishedAt t
  | (_, _, false) => forall s, s ∈ Examples.statuses -> Terminated s = None
  end.
Proof.
  apply (firstTerminated_most_recent Examples.statuses).
  exact statuses_latestFirst.
Defined.

Lemma termination_message_retrieved_witness :
  jobActive Examples.activeJob <> 0 /\
  exists statuses s t,
    findJobContainerStatus Examples.podsController Examples.activeJob
      "status.phase=Failed" "verify" = (statuses, None) /\
    s ∈ sortSlice Examples.podsController terminatedLess statuses /\
    Terminated s = Some t /\ "signature invalid" = termMessage t /\ 1 = ExitCode t /\
    (false = true -> 1 = 0).
Proof.
  apply (termination_message_retrieved Examples.podsController Examples.activeJob
           "status.phase=Failed" "verify" false Examples.emptyWorld "signature invalid" 1).
  reflexivity.
Defined.

Lemma syncAudit_propagates_panic_witness :
  syncAudit Examples.panickingLoadController {| namespace := "ocp"; name := "release" |}
    Examples.emptyWorld
  = (Panicked (PError "informer not synced"),
     set_trace (fun _ => [EvLoadRelease "ocp" "release"]) Examples.emptyWorld).
Proof.
  apply (syncAudit_propagates_panic Examples.panickingLoadController).
  - reflexivity.
  - discriminate.
Defined.
